(** * A to-do manager: extraction of deadline and priority, and the task file

    Shallow embedding of [gptcode1.py].

    Conventions of the embedding.
    - A Python [str] is a [string]; each character is a code point below 256
      (the Latin-1 range), on which [str.lower], [str.strip] and the
      class [\d] are written out below.
    - A value read from the task file is a [value]: what [json.load] builds
      (None, bool, int, float, str, list, dict).  A dict is an association
      list in insertion order, looked up by its first binding.
    - A raised exception is a [Raises e] result; [try]/[except] is [catch].
    - The task file is a [disk] state: no file, or a regular file told apart
      by what reading it gives.  [json.dump] writes a document that
      [json.load] reads back, so a written file is recorded by its document.
    - The console is a list of [event]s; what [input] returned is an
      argument of the operation that reads it. *)

From Stdlib Require Import Bool Arith ZArith Lia List Ascii String.
Import ListNotations.

Local Open Scope string_scope.
Local Open Scope list_scope.

Set Warnings "-register-all".

(* ================================================================= *)
(** ** Python strings *)

Module PyStr.

(** Code point of a character. *)
Definition code (c : ascii) : nat := nat_of_ascii c.

(** [str.lower] on one code point below 256: A-Z and the capital letters of
    the Latin-1 supplement (U+00C0..U+00DE, the sign U+00D7 apart) move up
    by 32; every other code point is kept. *)
Definition lower_char (c : ascii) : ascii :=
  let n := code c in
  if (((65 <=? n) && (n <=? 90))
      || ((192 <=? n) && (n <=? 222) && negb (n =? 215)))%nat
  then ascii_of_nat (n + 32)
  else c.

(** [text.lower()] *)
Fixpoint lower (text : string) : string :=
  match text with
  | EmptyString => EmptyString
  | String c rest => String (lower_char c) (lower rest)
  end.

(** The characters [str.strip] removes: TAB..CR, FS..US, space, NEL and
    the no-break space. *)
Definition is_space (c : ascii) : bool :=
  let n := code c in
  (((9 <=? n) && (n <=? 13)) || ((28 <=? n) && (n <=? 32))
   || (n =? 133) || (n =? 160))%nat.

Fixpoint lstrip (s : string) : string :=
  match s with
  | EmptyString => EmptyString
  | String c rest => if is_space c then lstrip rest else s
  end.

(** [rstrip]: a character is dropped when it is a space and everything
    after it has been dropped. *)
Fixpoint rstrip (s : string) : string :=
  match s with
  | EmptyString => EmptyString
  | String c rest =>
      match rstrip rest with
      | EmptyString => if is_space c then EmptyString else String c EmptyString
      | kept => String c kept
      end
  end.

(** [s.strip()] *)
Definition strip (s : string) : string := rstrip (lstrip s).

(** [s.startswith(p)] *)
Fixpoint starts_with (p s : string) : bool :=
  match p, s with
  | EmptyString, _ => true
  | String _ _, EmptyString => false
  | String a p', String b s' => Ascii.eqb a b && starts_with p' s'
  end.

(** [sub in s] for two strs: [sub] occurs in [s] at some position. *)
Fixpoint contains (sub s : string) : bool :=
  if starts_with sub s then true
  else match s with
       | EmptyString => false
       | String _ rest => contains sub rest
       end.

(** [\d] on a code point below 256. *)
Definition is_digit (c : ascii) : bool :=
  let n := code c in ((48 <=? n) && (n <=? 57))%nat.

(** Every character of [s] satisfies [p]. *)
Fixpoint all (p : ascii -> bool) (s : string) : bool :=
  match s with
  | EmptyString => true
  | String c rest => p c && all p rest
  end.

(** [s[n:]] and [s[:n]] *)
Fixpoint drop (n : nat) (s : string) : string :=
  match n, s with
  | O, _ => s
  | S _, EmptyString => EmptyString
  | S n', String _ rest => drop n' rest
  end.

Fixpoint take (n : nat) (s : string) : string :=
  match n, s with
  | O, _ => EmptyString
  | S _, EmptyString => EmptyString
  | S n', String c rest => String c (take n' rest)
  end.

(** [sub] is a slice of [s]. *)
Definition Substring (sub s : string) : Prop :=
  exists pre post, s = (pre ++ sub ++ post)%string.

End PyStr.

Import PyStr.

(* ================================================================= *)
(** ** NLP rules *)

(** [PRIORITY_KEYWORDS["high"]] and [PRIORITY_KEYWORDS["medium"]] *)
Definition PRIORITY_KEYWORDS_high : list string :=
  ["urgent"; "important"; "asap"; "immediately"; "critical"; "today"].

Definition PRIORITY_KEYWORDS_medium : list string :=
  ["soon"; "this week"; "next few days"].

Definition LOW_PRIORITY_PHRASES : list string :=
  ["not urgent"; "no urgency"; "low priority"; "not important"].

(** [for w in words: if w in text: return ...]: does the loop return? *)
Definition any_in (words : list string) (text : string) : bool :=
  existsb (fun w => contains w text) words.

Definition extract_priority (text : string) : string :=
  let text := lower text in
  if any_in LOW_PRIORITY_PHRASES text then "low"
  else if any_in PRIORITY_KEYWORDS_high text then "high"
  else if any_in PRIORITY_KEYWORDS_medium text then "medium"
  else "medium".

(* ================================================================= *)
(** ** Deadline patterns *)

(** The fragment of [re] syntax the deadline patterns are written in. *)
Inductive regex : Type :=
| Lit (s : string)            (* literal characters *)
| DigitPlus                   (* [\d+], greedy *)
| Or (r1 r2 : regex)          (* [r1|r2], the left alternative first *)
| Seq (r1 r2 : regex).        (* [r1 r2] *)

(** [(?:w1|w2|...|wn)] *)
Fixpoint one_of (w : string) (ws : list string) : regex :=
  match ws with
  | [] => Lit w
  | w' :: ws' => Or (Lit w) (one_of w' ws')
  end.

Definition weekday : regex :=
  one_of "monday"
    ["tuesday"; "wednesday"; "thursday"; "friday"; "saturday"; "sunday"].

(** [DEADLINE_REGEXES = [re.compile(p) for p in DEADLINE_PATTERNS]] *)
Definition DEADLINE_REGEXES : list regex :=
  [ Lit "today";
    Lit "tomorrow";
    Seq (Lit "within ")
        (Seq DigitPlus
             (Seq (Lit " ")
                  (one_of "day" ["days"; "week"; "weeks"; "month"; "months"])));
    Seq (Lit "by ") weekday;
    Seq (Lit "this ") weekday;
    Seq (Lit "next ") weekday;
    Seq (Lit "next ") (one_of "week" ["month"]) ].

(** Number of leading digits of [s]. *)
Fixpoint digit_run (s : string) : nat :=
  match s with
  | EmptyString => 0
  | String c rest => if is_digit c then S (digit_run rest) else 0
  end.

(** The splits of [s] after [n], [n-1], ..., 1 characters. *)
Fixpoint splits_down (n : nat) (s : string) : list (string * string) :=
  match n with
  | O => []
  | S n' => (take n s, drop n s) :: splits_down n' s
  end.

(** The backtracking matcher, anchored at the start of [s]: every way [r]
    matches a prefix of [s], as (matched text, rest of the input), in the
    order the engine tries them.  An alternation tries its left branch
    first, [\d+] the longest run first. *)
Fixpoint attempts (r : regex) (s : string) : list (string * string) :=
  match r with
  | Lit l => if starts_with l s then [(l, drop (String.length l) s)] else []
  | DigitPlus => splits_down (digit_run s) s
  | Or r1 r2 => attempts r1 s ++ attempts r2 s
  | Seq r1 r2 =>
      flat_map
        (fun '(m1, s1) =>
           map (fun '(m2, s2) => ((m1 ++ m2)%string, s2)) (attempts r2 s1))
        (attempts r1 s)
  end.

(** The match at the start of [s]: the first attempt that succeeds. *)
Definition match_here (r : regex) (s : string) : option string :=
  match attempts r s with
  | [] => None
  | (m, _) :: _ => Some m
  end.

(** [regex.search(text)] followed by [m.group()]: the match at the leftmost
    position where there is one. *)
Fixpoint search (r : regex) (text : string) : option string :=
  match match_here r text with
  | Some m => Some m
  | None =>
      match text with
      | EmptyString => None
      | String _ rest => search r rest
      end
  end.

(** The loop of [extract_deadline] over the compiled patterns. *)
Fixpoint first_match (regexes : list regex) (text : string) : string :=
  match regexes with
  | [] => "unspecified"
  | r :: rest =>
      match search r text with
      | Some m => m
      | None => first_match rest text
      end
  end.

Definition extract_deadline (text : string) : string :=
  let text := lower text in
  first_match DEADLINE_REGEXES text.

(** The language of a pattern: the texts it can match. *)
Inductive matches : regex -> string -> Prop :=
| M_Lit l : matches (Lit l) l
| M_Digits s :
    s <> "" -> all is_digit s = true -> matches DigitPlus s
| M_OrL r1 r2 s : matches r1 s -> matches (Or r1 r2) s
| M_OrR r1 r2 s : matches r2 s -> matches (Or r1 r2) s
| M_Seq r1 r2 s1 s2 :
    matches r1 s1 -> matches r2 s2 -> matches (Seq r1 r2) (s1 ++ s2)%string.

(** The pattern matches some slice of the text. *)
Definition occurs (r : regex) (text : string) : Prop :=
  exists m, matches r m /\ Substring m text.

(* ================================================================= *)
(** ** Exceptions *)

Inductive exn : Type :=
| JSONDecodeError
| UnicodeDecodeError
| TypeError
| KeyError
| AttributeError
| IndexError
| ValueError
| FileNotFoundError
| OSError
| RecursionError
| EOFError.

(** The outcome of running a piece of code: a value or a raised exception. *)
Inductive result (A : Type) : Type :=
| Returns (a : A)
| Raises (e : exn).

Arguments Returns {A} a.
Arguments Raises {A} e.

Definition bind {A B : Type} (c : result A) (k : A -> result B) : result B :=
  match c with
  | Returns a => k a
  | Raises e => Raises e
  end.

Notation "x <- c ;; k" := (bind c (fun x => k))
  (at level 61, c at next level, right associativity).
Notation "' pat <- c ;; k" := (bind c (fun x => match x with pat => k end))
  (at level 61, pat pattern, c at next level, right associativity).

(** [try: body  except handled: handler]; an exception outside [handled]
    propagates. *)
Definition catch {A : Type} (body : result A) (handled : exn -> bool)
    (handler : result A) : result A :=
  match body with
  | Returns a => Returns a
  | Raises e => if handled e then handler else Raises e
  end.

(* ================================================================= *)
(** ** Values and the data model *)

(** What [json.load] builds. *)
Inductive value : Type :=
| VNone
| VBool (b : bool)
| VInt (n : Z)
| VFloat (literal : string)
| VStr (s : string)
| VList (items : list value)
| VDict (entries : list (string * value)).

(** The dataclass [Task]; Python does not check the annotated field types,
    so a field holds any value. *)
Record Task : Type := mkTask
  { raw_text : value;
    deadline : value;
    priority : value }.

(** The declared fields, in order. *)
Definition Task_fields : list string := ["raw_text"; "deadline"; "priority"].

Definition has_key (k : string) (d : list (string * value)) : bool :=
  existsb (fun '(k', _) => String.eqb k' k) d.

Fixpoint lookup (k : string) (d : list (string * value)) : option value :=
  match d with
  | [] => None
  | (k', v) :: rest => if String.eqb k' k then Some v else lookup k rest
  end.

(** [key in container], for a str [key]. *)
Definition py_in (key : string) (container : value) : result bool :=
  match container with
  | VDict d => Returns (has_key key d)
  | VList l =>
      Returns (existsb (fun v => match v with
                                 | VStr s => String.eqb s key
                                 | _ => false
                                 end) l)
  | VStr s => Returns (contains key s)
  | VNone | VBool _ | VInt _ | VFloat _ => Raises TypeError
  end.

(** [container[key]], for a str [key]. *)
Definition getitem (container : value) (key : string) : result value :=
  match container with
  | VDict d =>
      match lookup key d with
      | Some v => Returns v
      | None => Raises KeyError
      end
  | _ => Raises TypeError
  end.

(** [container.get(key, default)] *)
Definition get (container : value) (key : string) (default : value)
    : result value :=
  match container with
  | VDict d =>
      match lookup key d with
      | Some v => Returns v
      | None => Returns default
      end
  | _ => Raises AttributeError
  end.

(** [Task] called with the keywords [**item]: they are bound to the three fields; a keyword
    that is no field, or a field left without a keyword, is a TypeError, as
    is an [item] that is no mapping. *)
Definition Task_kwargs (item : value) : result Task :=
  match item with
  | VDict d =>
      if forallb (fun '(k, _) => existsb (String.eqb k) Task_fields) d
      then
        match lookup "raw_text" d, lookup "deadline" d, lookup "priority" d with
        | Some r, Some dl, Some p => Returns (mkTask r dl p)
        | _, _, _ => Raises TypeError
        end
      else Raises TypeError
  | _ => Raises TypeError
  end.

(** [task.__dict__] *)
Definition Task_dict (task : Task) : value :=
  VDict [("raw_text", raw_text task);
         ("deadline", deadline task);
         ("priority", priority task)].

(** [for item in data]: the items the loop visits. *)
Definition iterate (data : value) : result (list value) :=
  match data with
  | VList l => Returns l
  | VDict d => Returns (map (fun '(k, _) => VStr k) d)
  | VStr s => Returns (map (fun c => VStr (String c EmptyString))
                           (list_ascii_of_string s))
  | VNone | VBool _ | VInt _ | VFloat _ => Raises TypeError
  end.

(* ================================================================= *)
(** ** Storage *)

(** The state of [DATA_FILE]: absent, or a regular file that can be
    written, by what opening, decoding and parsing it gives. *)
Inductive disk : Type :=
| NoFile                  (* [os.path.exists(DATA_FILE)] is false *)
| NotUtf8                 (* a file whose bytes are not valid UTF-8 *)
| NotJson                 (* a file of text that is not a JSON document *)
| Json (doc : value)      (* a file holding the JSON document [doc] *)
| Unreadable              (* a file the process may not read *)
| HugeNumber              (* JSON text with an integer literal of more
                             digits than [int] converts *)
| TooDeep.                (* JSON text nested deeper than the parser
                             recurses *)

Definition exists_ (d : disk) : bool :=
  match d with
  | NoFile => false
  | _ => true
  end.

(** [with open(DATA_FILE, "r", encoding="utf-8") as f: data = json.load(f)] *)
Definition json_load (d : disk) : result value :=
  match d with
  | Json doc => Returns doc
  | NotJson => Raises JSONDecodeError
  | NotUtf8 => Raises UnicodeDecodeError
  | NoFile => Raises FileNotFoundError
  | Unreadable => Raises OSError
  | HugeNumber => Raises ValueError
  | TooDeep => Raises RecursionError
  end.

(** [save_tasks]: the file is overwritten with the document
    [[task.__dict__ for task in tasks]]. *)
Definition save_tasks (tasks : list Task) (_ : disk) : disk :=
  Json (VList (map Task_dict tasks)).

(** The body of the [for] loop of [load_tasks], with the list [tasks] built
    so far. *)
Fixpoint load_loop (items : list value) (tasks : list Task)
    : result (list Task) :=
  match items with
  | [] => Returns tasks
  | item :: rest =>
      new <- py_in "raw_text" item ;;
      if new then
        t <- Task_kwargs item ;;
        load_loop rest (tasks ++ [t])
      else
        old <- py_in "description" item ;;
        if old then
          r <- getitem item "description" ;;
          dl <- get item "deadline" (VStr "unspecified") ;;
          p <- get item "priority" (VStr "medium") ;;
          load_loop rest (tasks ++ [mkTask r dl p])
        else load_loop rest tasks
  end.

(** [except (json.JSONDecodeError, TypeError, KeyError)] *)
Definition handled (e : exn) : bool :=
  match e with
  | JSONDecodeError | TypeError | KeyError => true
  | _ => false
  end.

Definition load_tasks (d : disk) : result (list Task) :=
  if negb (exists_ d) then Returns []
  else
    catch (data <- json_load d ;;
           items <- iterate data ;;
           load_loop items [])
          handled
          (Returns []).

(* ================================================================= *)
(** ** Parsing *)

Definition parse_task (user_input : string) : Task :=
  mkTask (VStr (strip user_input))
         (VStr (extract_deadline user_input))
         (VStr (extract_priority user_input)).

(* ================================================================= *)
(** ** Task operations *)

(** What the operations print.  A listing is recorded by the tasks it
    shows, a notice by its kind. *)
Inductive event : Type :=
| TaskCannotBeEmpty           (* "Task cannot be empty." *)
| TaskAdded                   (* "Task added." *)
| NoTasks                     (* "No tasks." *)
| Listing (rows : list Task)  (* the numbered listing under "TASKS" *)
| NoTasksToDelete             (* "No tasks to delete." *)
| Deleted (text : value)      (* "Deleted: {removed.raw_text}" *)
| InvalidNumber               (* "Invalid number." *)
| EnterANumber.               (* "Enter a number." *)

(** The list [tasks] shared by the operations, the task file and the
    console. *)
Record state : Type := mkState
  { tasks : list Task;
    file : disk;
    console : list event }.

Definition print (e : event) (st : state) : state :=
  mkState (tasks st) (file st) (console st ++ [e]).

Definition add_task (st : state) (line : string) : state :=
  let text := strip line in
  if String.eqb text "" then print TaskCannotBeEmpty st
  else
    let tasks' := tasks st ++ [parse_task text] in
    print TaskAdded (mkState tasks' (save_tasks tasks' (file st)) (console st)).

(** [t.priority.upper()]: only a str has the method. *)
Definition upper_priority (t : Task) : result unit :=
  match priority t with
  | VStr _ => Returns tt
  | _ => Raises AttributeError
  end.

Fixpoint print_rows (ts : list Task) : result unit :=
  match ts with
  | [] => Returns tt
  | t :: rest => _ <- upper_priority t ;; print_rows rest
  end.

Definition view_tasks (st : state) : result state :=
  match tasks st with
  | [] => Returns (print NoTasks st)
  | _ => _ <- print_rows (tasks st) ;; Returns (print (Listing (tasks st)) st)
  end.

(** [l.pop(i)]: a negative index counts from the end; an index outside the
    list is an IndexError. *)
Definition list_pop (l : list Task) (i : Z) : result (Task * list Task) :=
  let n := Z.of_nat (List.length l) in
  let j := if (i <? 0)%Z then (i + n)%Z else i in
  if ((0 <=? j) && (j <? n))%Z then
    match nth_error l (Z.to_nat j) with
    | Some x =>
        Returns (x, firstn (Z.to_nat j) l ++ skipn (S (Z.to_nat j)) l)
    | None => Raises IndexError
    end
  else Raises IndexError.

(** [except ValueError]: the clause catches ValueError and its subclasses. *)
Definition is_ValueError (e : exn) : bool :=
  match e with
  | ValueError | UnicodeDecodeError | JSONDecodeError => true
  | _ => false
  end.

(** [delete_task]; [entry] is the outcome of [int(input(...))]: the number
    typed, or the exception raised. *)
Definition delete_task (st : state) (entry : result Z) : result state :=
  match tasks st with
  | [] => Returns (print NoTasksToDelete st)
  | _ =>
      st1 <- view_tasks st ;;
      catch
        (idx <- entry ;;
         if ((1 <=? idx) && (idx <=? Z.of_nat (List.length (tasks st1))))%Z
         then
           '(removed, remaining) <- list_pop (tasks st1) (idx - 1) ;;
           Returns
             (print (Deleted (raw_text removed))
                (mkState remaining (save_tasks remaining (file st1))
                   (console st1)))
         else Returns (print InvalidNumber st1))
        is_ValueError
        (Returns (print EnterANumber st1))
  end.

(* ================================================================= *)
(** ** Auxiliary notions used in the statements *)

(** The literal text a pattern starts with. *)
Definition leading (r : regex) : string :=
  match r with
  | Lit l => l
  | Seq (Lit l) _ => l
  | _ => ""
  end.


(** The three priority levels. *)
Definition is_level (v : value) : Prop :=
  v = VStr "low" \/ v = VStr "medium" \/ v = VStr "high".

(** A non-empty str. *)
Definition is_text (v : value) : Prop :=
  exists s, v = VStr s /\ s <> "".

(** A valid record: [raw_text] and [deadline] are non-empty strs and
    [priority] is one of the three levels. *)
Definition valid_task (t : Task) : Prop :=
  is_text (raw_text t) /\ is_text (deadline t) /\ is_level (priority t).

(** The key set of a dict is exactly the three fields of [Task]. *)
Definition exact_fields (entries : list (string * value)) : Prop :=
  forall k, has_key k entries = true <-> In k Task_fields.

(** [d.get(key, default)] on the entries of a dict. *)
Definition lookup_default (key : string) (entries : list (string * value))
    (default : value) : value :=
  match lookup key entries with
  | Some v => v
  | None => default
  end.

(** The priority of the record is a str, as the dataclass annotates it. *)
Definition str_priority (t : Task) : Prop :=
  exists s, priority t = VStr s.

(** The seven deadline phrases as the specification lists them, by their
    position in the list: the texts the pattern at that position is meant
    to match. *)
Definition weekdays : list string :=
  ["monday"; "tuesday"; "wednesday"; "thursday"; "friday"; "saturday";
   "sunday"].

Definition units : list string :=
  ["day"; "days"; "week"; "weeks"; "month"; "months"].

Definition deadline_phrase (i : nat) (m : string) : Prop :=
  match i with
  | 0 => m = "today"
  | 1 => m = "tomorrow"
  | 2 => exists n unit,
           n <> "" /\ all is_digit n = true /\ In unit units /\
           m = ("within " ++ n ++ " " ++ unit)%string
  | 3 => exists d, In d weekdays /\ m = ("by " ++ d)%string
  | 4 => exists d, In d weekdays /\ m = ("this " ++ d)%string
  | 5 => exists d, In d weekdays /\ m = ("next " ++ d)%string
  | 6 => m = "next week" \/ m = "next month"
  | _ => False
  end.

(** The phrase at position [i] is a slice of the text. *)
Definition phrase_occurs (i : nat) (text : string) : Prop :=
  exists m, deadline_phrase i m /\ Substring m text.

(* ================================================================= *)
(** ** Focus mode and the main loop *)

(** What the program prints: the events of the task operations, and the
    lines of [focus_mode] and of [main] itself. *)
Inductive output : Type :=
| Menu                          (* the menu of the five choices *)
| Exiting                       (* "Exiting." *)
| InvalidChoice                 (* "Invalid choice." *)
| NoHighPriority                (* "No high-priority tasks." *)
| FocusListing (rows : list Task)  (* the numbered listing under "FOCUS MODE" *)
| Shown (e : event).

(** [t.priority == "high"] *)
Definition is_high (t : Task) : bool :=
  match priority t with
  | VStr s => String.eqb s "high"
  | _ => false
  end.

(** [focus_mode]: it reads the list and prints; the rows show [raw_text]
    and [deadline], which any value formats. *)
Definition focus_mode (tasks : list Task) : list output :=
  let high := filter is_high tasks in
  match high with
  | [] => [NoHighPriority]
  | _ => [FocusListing high]
  end.

(** The program while [main] runs: the list [tasks], the task file and
    the screen. *)
Record session : Type := mkSession
  { mem : list Task;
    dsk : disk;
    screen : list output }.

Definition show (o : output) (s : session) : session :=
  mkSession (mem s) (dsk s) (screen s ++ [o]).

(** The state a task operation is called in, and the session after it
    returned: the operation prints below what is on the screen. *)
Definition as_state (s : session) : state := mkState (mem s) (dsk s) [].

Definition after (s : session) (st : state) : session :=
  mkSession (tasks st) (file st) (screen s ++ map Shown (console st)).

(** [delete_task] reaches its [input] call when the list is not empty and
    the listing has been printed. *)
Definition reads_number (st : state) : bool :=
  match tasks st with
  | [] => false
  | _ => match view_tasks st with
         | Returns _ => true
         | Raises _ => false
         end
  end.

(** How [main] ends: by the choice 5, by an exception that nothing catches,
    or because [input] found the console closed (EOFError) once the lines
    typed ran out. *)
Inductive ending : Type :=
| Exited (s : session)
| Crashed (e : exn)
| InputClosed (s : session).

Section Program.

(** [int(text)] on what was typed: a library function, left open. *)
Variable py_int : string -> result Z.

(** The [while True] loop of [main] over the lines typed at the console. *)
Fixpoint main_loop (inputs : list string) (s : session) : ending :=
  let s := show Menu s in
  match inputs with
  | [] => InputClosed s
  | line :: rest =>
      let choice := strip line in
      if String.eqb choice "1" then
        match rest with
        | [] => InputClosed s
        | text :: rest' => main_loop rest' (after s (add_task (as_state s) text))
        end
      else if String.eqb choice "2" then
        match view_tasks (as_state s) with
        | Returns st => main_loop rest (after s st)
        | Raises e => Crashed e
        end
      else if String.eqb choice "3" then
        if reads_number (as_state s) then
          match rest with
          | [] =>
              match view_tasks (as_state s) with
              | Returns st => InputClosed (after s st)
              | Raises e => Crashed e
              end
          | answer :: rest' =>
              match delete_task (as_state s) (py_int answer) with
              | Returns st => main_loop rest' (after s st)
              | Raises e => Crashed e
              end
          end
        else
          match delete_task (as_state s) (Raises ValueError) with
          | Returns st => main_loop rest (after s st)
          | Raises e => Crashed e
          end
      else if String.eqb choice "4" then
        main_loop rest
          (mkSession (mem s) (dsk s) (screen s ++ focus_mode (mem s)))
      else if String.eqb choice "5" then Exited (show Exiting s)
      else main_loop rest (show InvalidChoice s)
  end.

Definition main (d : disk) (inputs : list string) : ending :=
  match load_tasks d with
  | Returns tasks => main_loop inputs (mkSession tasks d [])
  | Raises e => Crashed e
  end.

End Program.

(* ================================================================= *)
(** ** Further notions used in the statements *)

(** The units a returned deadline can end with. *)
Definition returned_units : list string := ["day"; "week"; "month"].

(** The value is a str. *)
Definition is_str (v : value) : Prop := exists s, v = VStr s.

(** The first and the last character of a str are no whitespace. *)
Definition trimmed (s : string) : Prop :=
  lstrip s = s /\ rstrip s = s.

(** What is on disk loads as what is in memory. *)
Definition in_step (s : session) : Prop :=
  load_tasks (dsk s) = Returns (mem s).

(** What a task operation may have done to the list and the file: nothing,
    or changed the list and saved it. *)
Definition untouched_or_saved (st st' : state) : Prop :=
  (tasks st' = tasks st /\ file st' = file st) \/
  file st' = save_tasks (tasks st') (file st).

(** The last character of a str, or [d] for the empty str. *)
Fixpoint last_char (s : string) (d : ascii) : ascii :=
  match s with
  | EmptyString => d
  | String c rest => last_char rest c
  end.

(** The str is not empty and its first, respectively last, character is no
    whitespace. *)
Definition solid_start (s : string) : bool :=
  match s with
  | EmptyString => false
  | String c _ => negb (is_space c)
  end.

Definition solid_end (s : string) : bool :=
  negb (is_space (last_char s " "%char)).

Definition solid (s : string) : bool := solid_start s && solid_end s.

(** Every text the pattern matches is not empty and ends with a character
    that is no whitespace. *)
Fixpoint ends_solid (r : regex) : bool :=
  match r with
  | Lit l => solid_end l
  | DigitPlus => true
  | Or r1 r2 => ends_solid r1 && ends_solid r2
  | Seq _ r2 => ends_solid r2
  end.

(** An attempt on [s ++ w] that stays inside [s], and an attempt on [s]
    seen as an attempt on [s ++ w]. *)
Definition fits (s : string) (a : string * string) : bool :=
  (String.length (fst a) <=? String.length s)%nat.

Definition extend (w : string) (a : string * string) : string * string :=
  (fst a, (snd a ++ w)%string).
(* ================================================================= *)
(** ** Facts about strings *)

Section StringFacts.

Local Open Scope string_scope.

Lemma starts_with_split (p s : string) :
  starts_with p s = true <-> exists post, s = p ++ post.
Proof.
  revert s; induction p as [|c p IH]; intros s; simpl.
  - split; [intros _; now exists s | reflexivity].
  - destruct s as [|d s].
    + split; [discriminate | intros [post H]; discriminate].
    + rewrite andb_true_iff, IH, Ascii.eqb_eq. split.
      * intros [-> [post ->]]. now exists post.
      * intros [post H]. injection H as -> ->. split; [reflexivity|now exists post].
Qed.

Lemma contains_Substring (sub s : string) :
  contains sub s = true <-> Substring sub s.
Proof.
  unfold Substring. induction s as [|c s IH]; simpl.
  - destruct (starts_with sub "") eqn:E.
    + split; [intros _ | reflexivity].
      apply starts_with_split in E. destruct E as [post E].
      now exists "", post.
    + split; [discriminate|]. intros [pre [post H]].
      destruct pre; [| discriminate].
      assert (starts_with sub "" = true)
        by (apply starts_with_split; now exists post).
      congruence.
  - destruct (starts_with sub (String c s)) eqn:E.
    + split; [intros _ | reflexivity].
      apply starts_with_split in E. destruct E as [post E].
      now exists "", post.
    + rewrite IH. split.
      * intros [pre [post H]]. exists (String c pre), post. simpl. now rewrite H.
      * intros [pre [post H]]. destruct pre as [|d pre].
        -- assert (starts_with sub (String c s) = true)
             by (apply starts_with_split; now exists post).
           congruence.
        -- simpl in H. injection H as _ H. now exists pre, post.
Qed.

Lemma append_assoc (a b c : string) : (a ++ b) ++ c = a ++ (b ++ c).
Proof. induction a; simpl; congruence. Qed.

Lemma append_empty_r (a : string) : a ++ "" = a.
Proof. induction a; simpl; congruence. Qed.

Lemma drop_append (a b : string) : drop (String.length a) (a ++ b) = b.
Proof. induction a; simpl; [now destruct b | assumption]. Qed.

Lemma take_append (a b : string) : take (String.length a) (a ++ b) = a.
Proof. induction a; simpl; [reflexivity | congruence]. Qed.

Lemma take_drop (n : nat) (s : string) : take n s ++ drop n s = s.
Proof.
  revert s; induction n; intros [|c s]; simpl; try reflexivity.
  now rewrite IHn.
Qed.

Lemma all_append (p : ascii -> bool) (a b : string) :
  all p (a ++ b) = all p a && all p b.
Proof. induction a; simpl; [reflexivity | now rewrite IHa, andb_assoc]. Qed.

End StringFacts.

(* ================================================================= *)
(** ** The matcher against the language of a pattern *)

Section Matcher.

Local Open Scope string_scope.

Lemma splits_down_In (n : nat) (s m rest : string) :
  In (m, rest) (splits_down n s) <->
  exists k, 1 <= k <= n /\ m = take k s /\ rest = drop k s.
Proof.
  induction n as [|n IH].
  - simpl. split; [tauto | intros [k [Hk _]]; lia].
  - cbn [splits_down In]. rewrite IH. split.
    + intros [H | [k [Hk [-> ->]]]].
      * injection H as <- <-. exists (S n). repeat split; lia.
      * exists k. repeat split; lia.
    + intros [k [Hk [-> ->]]].
      destruct (Nat.eq_dec k (S n)) as [->|Hne]; [now left|].
      right. exists k. repeat split; lia.
Qed.

Lemma take_digit_run (k : nat) (s : string) :
  k <= digit_run s -> all is_digit (take k s) = true.
Proof.
  revert s; induction k as [|k IH]; intros s Hk; [reflexivity|].
  destruct s as [|c s]; simpl in *; [reflexivity|].
  destruct (is_digit c); [|lia]. apply IH. lia.
Qed.

Lemma take_nonempty (k : nat) (s : string) :
  1 <= k <= String.length s -> take k s <> "".
Proof.
  destruct k; [lia|]. destruct s; simpl; [lia | discriminate].
Qed.

Lemma digit_run_length (s : string) : digit_run s <= String.length s.
Proof.
  induction s as [|c s IH]; simpl; [lia|]. destruct (is_digit c); lia.
Qed.

Lemma digit_run_append (m rest : string) :
  all is_digit m = true -> String.length m <= digit_run (m ++ rest).
Proof.
  induction m as [|c m IH]; simpl; [lia|].
  intros H. apply andb_prop in H. destruct H as [-> H].
  apply IH in H. lia.
Qed.

(** Every attempt is a split of the input whose first part is in the
    language of the pattern. *)
Lemma attempts_sound (r : regex) :
  forall s m rest,
    In (m, rest) (attempts r s) -> s = m ++ rest /\ matches r m.
Proof.
  induction r as [l | | r1 IH1 r2 IH2 | r1 IH1 r2 IH2]; intros s m rest; simpl.
  - destruct (starts_with l s) eqn:E; simpl; [|tauto].
    intros [H|[]]. injection H as <- <-.
    apply starts_with_split in E. destruct E as [post ->].
    rewrite drop_append. split; [reflexivity | constructor].
  - rewrite splits_down_In. intros [k [Hk [-> ->]]].
    split; [now rewrite take_drop|].
    constructor.
    + apply take_nonempty. pose proof (digit_run_length s). lia.
    + apply take_digit_run. lia.
  - rewrite in_app_iff. intros [H|H].
    + apply IH1 in H. destruct H. split; [assumption | now apply M_OrL].
    + apply IH2 in H. destruct H. split; [assumption | now apply M_OrR].
  - rewrite in_flat_map. intros [[m1 s1] [H1 H2]].
    apply in_map_iff in H2. destruct H2 as [[m2 s2] [E H2]].
    injection E as <- <-.
    apply IH1 in H1. apply IH2 in H2.
    destruct H1 as [-> M1], H2 as [-> M2].
    split; [now rewrite append_assoc | now constructor].
Qed.

(** Every text of the language that starts the input is among the
    attempts. *)
Lemma attempts_complete (r : regex) (m : string) :
  matches r m -> forall rest, In (m, rest) (attempts r (m ++ rest)).
Proof.
  induction 1 as [l | s Hne Hd | r1 r2 s _ IH | r1 r2 s _ IH
                  | r1 r2 s1 s2 _ IH1 _ IH2]; intros rest; simpl.
  - assert (E : starts_with l (l ++ rest) = true)
      by (apply starts_with_split; now exists rest).
    rewrite E, drop_append. now left.
  - apply splits_down_In. exists (String.length s).
    rewrite take_append, drop_append. repeat split.
    + destruct s; [congruence | simpl; lia].
    + now apply digit_run_append.
  - apply in_app_iff. left. apply IH.
  - apply in_app_iff. right. apply IH.
  - apply in_flat_map. exists (s1, s2 ++ rest). split.
    + rewrite append_assoc. apply IH1.
    + apply in_map_iff. exists (s2, rest). split.
      * reflexivity.
      * apply IH2.
Qed.

Lemma match_here_Some (r : regex) (s m : string) :
  match_here r s = Some m -> exists rest, s = m ++ rest /\ matches r m.
Proof.
  unfold match_here. destruct (attempts r s) as [|[m' rest] l] eqn:E;
    [discriminate|].
  intros H. injection H as <-. exists rest.
  apply (attempts_sound r s). rewrite E. now left.
Qed.

Lemma match_here_None (r : regex) (s : string) :
  match_here r s = None ->
  forall m rest, s = m ++ rest -> ~ matches r m.
Proof.
  unfold match_here. destruct (attempts r s) as [|[m' rest'] l] eqn:E;
    [|discriminate].
  intros _ m rest -> M.
  pose proof (attempts_complete r m M rest) as H. rewrite E in H. destruct H.
Qed.

(** A successful search returns a slice of the text that is in the language
    of the pattern, at the leftmost position where some match starts. *)
Lemma search_Some (r : regex) (text m : string) :
  search r text = Some m ->
  exists pre post,
    text = pre ++ m ++ post /\ matches r m /\
    forall pre' m' post',
      text = pre' ++ m' ++ post' -> matches r m' ->
      String.length pre <= String.length pre'.
Proof.
  induction text as [|c text IH]; simpl.
  - destruct (match_here r "") as [m0|] eqn:E; [|discriminate].
    intros H. injection H as ->. apply match_here_Some in E.
    destruct E as [rest [E M]]. exists "", rest. simpl.
    repeat split; try assumption. intros; lia.
  - destruct (match_here r (String c text)) as [m0|] eqn:E.
    + intros H. injection H as ->. apply match_here_Some in E.
      destruct E as [rest [E M]]. exists "", rest. simpl.
      repeat split; try assumption. intros; lia.
    + intros H. apply IH in H. destruct H as [pre [post [-> [M L]]]].
      exists (String c pre), post. simpl. repeat split; try assumption.
      intros pre' m' post' E' M'. destruct pre' as [|d pre'].
      * simpl in E'. exfalso.
        exact (match_here_None _ _ E m' post' E' M').
      * simpl in E'. injection E' as _ E'. simpl.
        apply le_n_S. exact (L pre' m' post' E' M').
Qed.

(** A search fails exactly when the pattern occurs nowhere in the text. *)
Lemma search_None (r : regex) (text : string) :
  search r text = None <-> ~ occurs r text.
Proof.
  unfold occurs, Substring. split.
  - induction text as [|c text IH]; simpl.
    + destruct (match_here r "") eqn:E; [discriminate|].
      intros _ [m [M [pre [post H]]]]. destruct pre; [|discriminate].
      exact (match_here_None _ _ E m post H M).
    + destruct (match_here r (String c text)) eqn:E; [discriminate|].
      intros H [m [M [pre [post H']]]]. destruct pre as [|d pre].
      * exact (match_here_None _ _ E m post H' M).
      * simpl in H'. injection H' as _ H'. apply (IH H).
        exists m. split; [assumption | now exists pre, post].
  - intros N. destruct (search r text) as [m|] eqn:E; [|reflexivity].
    exfalso. apply N. apply search_Some in E.
    destruct E as [pre [post [E [M _]]]]. exists m. split; [assumption|].
    now exists pre, post.
Qed.

End Matcher.

(* ================================================================= *)
(** ** Extraction *)

Section Extraction.

Local Open Scope string_scope.

(** The loop over the patterns: either no pattern occurs and the default is
    returned, or the result is the match of the first pattern that occurs. *)
Lemma first_match_spec (regexes : list regex) (text : string) :
  (first_match regexes text = "unspecified" /\
   forall r, In r regexes -> ~ occurs r text)
  \/
  (exists i r,
      nth_error regexes i = Some r /\
      (forall j r', j < i -> nth_error regexes j = Some r' ->
                    ~ occurs r' text) /\
      matches r (first_match regexes text) /\
      exists pre post,
        text = pre ++ first_match regexes text ++ post /\
        forall pre' m' post',
          text = pre' ++ m' ++ post' -> matches r m' ->
          String.length pre <= String.length pre').
Proof.
  induction regexes as [|r rest IH]; simpl.
  - left. split; [reflexivity | intros r []].
  - destruct (search r text) as [m|] eqn:E.
    + right. exists 0, r. split; [reflexivity|]. split; [intros; lia|].
      apply search_Some in E. destruct E as [pre [post [E [M L]]]].
      split; [assumption|]. now exists pre, post.
    + apply search_None in E. destruct IH as [[IH1 IH2] | [i [r0 [Hn [Hj H]]]]].
      * left. split; [assumption|]. intros r0 [<-|Hin]; auto.
      * right. exists (S i), r0. split; [assumption|]. split; [|assumption].
        intros [|j] r' Hlt Hnth; simpl in Hnth.
        -- now injection Hnth as <-.
        -- apply (Hj j r'); [lia | assumption].
Qed.

Lemma matches_one_of (w : string) (ws : list string) (m : string) :
  matches (one_of w ws) m <-> In m (w :: ws).
Proof.
  revert w; induction ws as [|w' ws IH]; intros w; simpl.
  - split.
    + intros H. inversion H. now left.
    + intros [<-|[]]. constructor.
  - split.
    + intros H. inversion H; subst.
      * match goal with M : matches (Lit _) _ |- _ => inversion M end.
        now left.
      * right. now apply IH.
    + intros [<-|H].
      * apply M_OrL. constructor.
      * apply M_OrR. now apply IH.
Qed.

Lemma matches_Lit (l m : string) : matches (Lit l) m <-> m = l.
Proof.
  split; [intros H; now inversion H | intros ->; constructor].
Qed.

Lemma matches_Seq (r1 r2 : regex) (m : string) :
  matches (Seq r1 r2) m <->
  exists m1 m2, matches r1 m1 /\ matches r2 m2 /\ m = m1 ++ m2.
Proof.
  split.
  - intros H. inversion H; subst. eauto.
  - intros [m1 [m2 [H1 [H2 ->]]]]. now constructor.
Qed.

Lemma matches_DigitPlus (m : string) :
  matches DigitPlus m <-> m <> "" /\ all is_digit m = true.
Proof.
  split; [intros H; now inversion H | intros [H1 H2]; now constructor].
Qed.

Lemma matches_weekday (m : string) : matches weekday m <-> In m weekdays.
Proof. exact (matches_one_of "monday" (tl weekdays) m). Qed.

Lemma matches_unit (m : string) :
  matches (one_of "day" (tl units)) m <-> In m units.
Proof. exact (matches_one_of "day" (tl units) m). Qed.

Lemma matches_week_month (m : string) :
  matches (one_of "week" ["month"]) m <-> m = "week" \/ m = "month".
Proof.
  rewrite (matches_one_of "week" ["month"] m). simpl.
  split; [intros [<-|[<-|[]]] | intros [->| ->]]; auto.
Qed.

(** The languages of the compiled patterns are the seven phrases of the
    specification, position by position. *)
Lemma deadline_phrase_matches (i : nat) (r : regex) (m : string) :
  nth_error DEADLINE_REGEXES i = Some r ->
  (matches r m <-> deadline_phrase i m).
Proof.
  intros Hn. unfold DEADLINE_REGEXES in Hn.
  destruct i as [|[|[|[|[|[|[|i]]]]]]]; cbn [nth_error] in Hn;
    [injection Hn as <-; cbn [deadline_phrase] .. | ].
  - apply matches_Lit.
  - apply matches_Lit.
  - rewrite matches_Seq. split.
    + intros [m1 [m2 [H1 [H2 ->]]]]. apply matches_Lit in H1. subst m1.
      apply matches_Seq in H2. destruct H2 as [n [m3 [Hn' [H3 ->]]]].
      apply matches_DigitPlus in Hn'. destruct Hn' as [Hne Hd].
      apply matches_Seq in H3. destruct H3 as [sp [u [Hsp [Hu ->]]]].
      apply matches_Lit in Hsp. subst sp.
      apply matches_unit in Hu. exists n, u. now repeat split.
    + intros [n [u [Hne [Hd [Hu ->]]]]].
      exists "within ", (n ++ " " ++ u). split; [constructor|].
      split; [|reflexivity]. constructor; [now constructor|].
      constructor; [constructor | now apply matches_unit].
  - rewrite matches_Seq. split.
    + intros [m1 [m2 [H1 [H2 ->]]]]. apply matches_Lit in H1. subst m1.
      apply matches_weekday in H2. now exists m2.
    + intros [d [Hd ->]]. exists "by ", d. split; [constructor|].
      split; [now apply matches_weekday | reflexivity].
  - rewrite matches_Seq. split.
    + intros [m1 [m2 [H1 [H2 ->]]]]. apply matches_Lit in H1. subst m1.
      apply matches_weekday in H2. now exists m2.
    + intros [d [Hd ->]]. exists "this ", d. split; [constructor|].
      split; [now apply matches_weekday | reflexivity].
  - rewrite matches_Seq. split.
    + intros [m1 [m2 [H1 [H2 ->]]]]. apply matches_Lit in H1. subst m1.
      apply matches_weekday in H2. now exists m2.
    + intros [d [Hd ->]]. exists "next ", d. split; [constructor|].
      split; [now apply matches_weekday | reflexivity].
  - rewrite matches_Seq. split.
    + intros [m1 [m2 [H1 [H2 ->]]]]. apply matches_Lit in H1. subst m1.
      apply matches_week_month in H2. destruct H2 as [->| ->]; auto.
    + intros [->| ->]; [exists "next ", "week" | exists "next ", "month"];
        (split; [constructor|]);
        (split; [apply matches_week_month; auto | reflexivity]).
  - destruct i; discriminate.
Qed.

Lemma phrase_occurs_occurs (i : nat) (r : regex) (text : string) :
  nth_error DEADLINE_REGEXES i = Some r ->
  (occurs r text <-> phrase_occurs i text).
Proof.
  intros Hn. unfold occurs, phrase_occurs.
  split; intros [m [M S]]; exists m; split; trivial;
    now apply (deadline_phrase_matches i r m Hn).
Qed.

Lemma matches_leading (r : regex) (m : string) :
  matches r m -> exists rest, m = leading r ++ rest.
Proof.
  intros M. destruct r as [l | | r1 r2 | r1 r2]; simpl.
  - inversion M. exists "". now rewrite append_empty_r.
  - now exists m.
  - now exists m.
  - inversion M as [ | | | | ? ? s1 s2 M1 M2]; subst.
    destruct r1; simpl; try now exists (s1 ++ s2).
    inversion M1; subst. now exists s2.
Qed.

Lemma lower_char_space (c : ascii) : is_space c = true -> lower_char c = c.
Proof.
  destruct c as [[] [] [] [] [] [] [] []]; vm_compute;
    first [reflexivity | discriminate].
Qed.

Lemma lower_blank (s : string) : all is_space s = true -> lower s = s.
Proof.
  induction s as [|c s IH]; simpl; [reflexivity|].
  intros H. apply andb_prop in H. destruct H as [Hc Hs].
  now rewrite (lower_char_space c Hc), IH.
Qed.

Lemma lstrip_blank (s : string) : all is_space s = true -> lstrip s = "".
Proof.
  induction s as [|c s IH]; simpl; [reflexivity|].
  intros H. apply andb_prop in H. destruct H as [-> Hs]. auto.
Qed.

Lemma Substring_blank (sub s : string) :
  Substring sub s -> all is_space s = true -> all is_space sub = true.
Proof.
  intros [pre [post ->]]. rewrite !all_append.
  intros H. apply andb_prop in H. destruct H as [_ H].
  apply andb_prop in H. tauto.
Qed.

(** A list of words none of which is blank finds nothing in a blank text. *)
Lemma any_in_blank (words : list string) (text : string) :
  forallb (fun w => negb (all is_space w)) words = true ->
  all is_space text = true ->
  any_in words text = false.
Proof.
  intros Hw Ht. unfold any_in.
  destruct (existsb (fun w => contains w text) words) eqn:E; [|reflexivity].
  apply existsb_exists in E. destruct E as [w [Hin Hc]].
  apply contains_Substring in Hc.
  pose proof (Substring_blank w text Hc Ht) as Hb.
  rewrite forallb_forall in Hw. specialize (Hw w Hin).
  rewrite Hb in Hw. discriminate.
Qed.

Lemma no_deadline_in_blank (r : regex) (text : string) :
  In r DEADLINE_REGEXES -> all is_space text = true -> ~ occurs r text.
Proof.
  intros Hin Ht [m [M S]].
  pose proof (Substring_blank m text S Ht) as Hb.
  apply matches_leading in M. destruct M as [rest ->].
  rewrite all_append in Hb. apply andb_prop in Hb. destruct Hb as [Hb _].
  simpl in Hin.
  repeat (destruct Hin as [<-|Hin]; [vm_compute in Hb; discriminate|]).
  destruct Hin.
Qed.

End Extraction.

(** C6: [extract_deadline] lowercases the text and walks the seven patterns
    in their listed order (today; tomorrow; within <digits> <unit>;
    by/this/next <weekday>; next week or month).  Either none of the seven
    phrases occurs anywhere in the lowercased text and the result is
    "unspecified", or the result is what the first pattern that occurs
    somewhere matched: the phrase at some position [i] of the list, a slice
    of the lowercased text starting at the leftmost place where a phrase of
    position [i] starts, while no phrase of an earlier position occurs
    anywhere.  On "today or tomorrow" both "today" and "tomorrow" occur and
    the result is "today". *)
Theorem extract_deadline_first_pattern :
  List.length DEADLINE_REGEXES = 7 /\
  (forall text : string,
      (extract_deadline text = "unspecified" /\
       forall i, ~ phrase_occurs i (lower text))
      \/
      (exists i,
          i < 7 /\
          (forall j, j < i -> ~ phrase_occurs j (lower text)) /\
          deadline_phrase i (extract_deadline text) /\
          exists pre post,
            lower text = (pre ++ extract_deadline text ++ post)%string /\
            forall pre' m' post',
              lower text = (pre' ++ m' ++ post')%string ->
              deadline_phrase i m' ->
              String.length pre <= String.length pre')) /\
  phrase_occurs 0 (lower "today or tomorrow") /\
  phrase_occurs 1 (lower "today or tomorrow") /\
  extract_deadline "today or tomorrow" = "today".
Proof.
  split; [reflexivity|]. split.
  - intros text. unfold extract_deadline.
    destruct (first_match_spec DEADLINE_REGEXES (lower text))
      as [[E N] | [i [r [Hn [Hj [M [pre [post [E L]]]]]]]]].
    + left. split; [assumption|]. intros i [m [P S]].
      destruct (nth_error DEADLINE_REGEXES i) as [r|] eqn:Hn.
      * apply (N r (nth_error_In _ _ Hn)).
        apply (phrase_occurs_occurs i r _ Hn). now exists m.
      * apply nth_error_None in Hn. simpl in Hn.
        do 7 (destruct i as [|i]; [lia|]). exact P.
    + right. exists i. split; [|split; [|split]].
      * change 7 with (List.length DEADLINE_REGEXES).
        apply nth_error_Some. congruence.
      * intros j Hlt Hocc.
        destruct (nth_error DEADLINE_REGEXES j) as [r'|] eqn:Hn'.
        -- apply (Hj j r' Hlt Hn').
           now apply (phrase_occurs_occurs j r' _ Hn').
        -- apply nth_error_None in Hn'.
           assert (i < List.length DEADLINE_REGEXES)
             by (apply nth_error_Some; congruence).
           lia.
      * now apply (deadline_phrase_matches i r _ Hn).
      * exists pre, post. split; [assumption|].
        intros pre' m' post' E' P'. apply (L pre' m' post' E').
        now apply (deadline_phrase_matches i r m' Hn).
  - repeat split.
    + exists "today"%string. split; [reflexivity|].
      now exists ""%string, " or tomorrow"%string.
    + exists "tomorrow"%string. split; [reflexivity|].
      now exists "today or "%string, ""%string.
Qed.

(** What the third pattern returns on a text that spells the unit in the
    plural: the alternation takes "day" before "days". *)
Example extract_deadline_within :
  extract_deadline "submit report within 3 days" = "within 3 day".
Proof. reflexivity. Qed.

(** C5: a text whose lowercased form contains one of the low-priority
    phrases has priority "low", whatever other keywords it contains. *)
Theorem low_priority_override (text phrase : string) :
  In phrase LOW_PRIORITY_PHRASES ->
  Substring phrase (lower text) ->
  extract_priority text = "low"%string.
Proof.
  intros Hin Hsub. unfold extract_priority.
  assert (E : any_in LOW_PRIORITY_PHRASES (lower text) = true).
  { unfold any_in. apply existsb_exists. exists phrase.
    split; [assumption | now apply contains_Substring]. }
  now rewrite E.
Qed.

(** C5 at "urgent but not important": the phrase "not important" is there,
    so is the high-priority keyword "urgent", and the priority is "low". *)
Lemma low_priority_override_witness :
  In "not important"%string LOW_PRIORITY_PHRASES /\
  Substring "not important" (lower "urgent but not important") /\
  any_in PRIORITY_KEYWORDS_high (lower "urgent but not important") = true /\
  extract_priority "urgent but not important" = "low"%string.
Proof.
  assert (Hin : In "not important"%string LOW_PRIORITY_PHRASES)
    by (simpl; tauto).
  assert (Hsub : Substring "not important" (lower "urgent but not important"))
    by (exists "urgent but "%string, ""%string; reflexivity).
  split; [exact Hin|]. split; [exact Hsub|]. split; [reflexivity|].
  exact (low_priority_override "urgent but not important" "not important"
           Hin Hsub).
Defined.

(** [extract_priority] returns one of the three levels on every text. *)
Lemma extract_priority_level (text : string) :
  is_level (VStr (extract_priority text)).
Proof.
  unfold extract_priority, is_level.
  destruct (any_in LOW_PRIORITY_PHRASES (lower text)); [tauto|].
  destruct (any_in PRIORITY_KEYWORDS_high (lower text)); [tauto|].
  destruct (any_in PRIORITY_KEYWORDS_medium (lower text)); tauto.
Qed.

Lemma extract_priority_blank (text : string) :
  all is_space text = true -> extract_priority text = "medium"%string.
Proof.
  intros H. unfold extract_priority. rewrite (lower_blank text H).
  rewrite !any_in_blank by (reflexivity || assumption). reflexivity.
Qed.

Lemma extract_deadline_blank (text : string) :
  all is_space text = true -> extract_deadline text = "unspecified"%string.
Proof.
  intros H. unfold extract_deadline. rewrite (lower_blank text H).
  destruct (first_match_spec DEADLINE_REGEXES text)
    as [[E _] | [i [r [Hn [_ [M [pre [post [E _]]]]]]]]]; [assumption|].
  exfalso. apply (no_deadline_in_blank r text); [|assumption|].
  - eapply nth_error_In; eassumption.
  - exists (first_match DEADLINE_REGEXES text). split; [assumption|].
    now exists pre, post.
Qed.

(** C9: on an input that is empty or made of whitespace only, [parse_task]
    still builds a record, with the empty raw_text, deadline "unspecified"
    and priority "medium"; [add_task] on such a line prints its notice and
    leaves the list and the file as they were, and on any other line it
    appends the record parsed from the stripped line and saves the list. *)
Theorem parse_task_blank_input (user_input : string) :
  all is_space user_input = true ->
  parse_task user_input
    = mkTask (VStr "") (VStr "unspecified") (VStr "medium") /\
  (forall st, add_task st user_input = print TaskCannotBeEmpty st) /\
  (forall st line,
      strip line <> ""%string ->
      add_task st line
        = print TaskAdded
            (mkState (tasks st ++ [parse_task (strip line)])
                     (save_tasks (tasks st ++ [parse_task (strip line)])
                                 (file st))
                     (console st))).
Proof.
  intros H. split; [|split].
  - unfold parse_task, strip.
    now rewrite (lstrip_blank _ H), (extract_deadline_blank _ H),
      (extract_priority_blank _ H).
  - intros st. unfold add_task, strip. now rewrite (lstrip_blank _ H).
  - intros st line Hne. unfold add_task.
    destruct (String.eqb (strip line) "") eqn:E; [|reflexivity].
    apply String.eqb_eq in E. contradiction.
Qed.

(** C9 at a line of a space, a tab and a newline. *)
Lemma parse_task_blank_input_witness :
  let blank := String " " (String "009" (String "010" EmptyString)) in
  all is_space blank = true /\
  parse_task blank = mkTask (VStr "") (VStr "unspecified") (VStr "medium") /\
  add_task (mkState [] NoFile []) blank
    = mkState [] NoFile [TaskCannotBeEmpty].
Proof.
  intros blank.
  assert (H : all is_space blank = true) by reflexivity.
  destruct (parse_task_blank_input blank H) as [P [A _]].
  split; [exact H|]. split; [exact P|].
  exact (A (mkState [] NoFile [])).
Defined.

(* ================================================================= *)
(** ** The loop of [load_tasks] *)

Section Loading.

Lemma has_key_lookup (k : string) (d : list (string * value)) :
  has_key k d = true <-> exists v, lookup k d = Some v.
Proof.
  induction d as [|[k' v'] d IH]; simpl.
  - split; [discriminate | intros [v H]; discriminate].
  - destruct (String.eqb k' k); simpl.
    + split; [intros _; now exists v' | reflexivity].
    + exact IH.
Qed.

Lemma has_key_false_lookup (k : string) (d : list (string * value)) :
  has_key k d = false <-> lookup k d = None.
Proof.
  pose proof (has_key_lookup k d) as H.
  destruct (has_key k d), (lookup k d) as [v|]; split; intros E;
    try reflexivity; try discriminate.
  - destruct (proj1 H eq_refl) as [w Hw]. discriminate.
  - assert (false = true) by (apply H; now exists v). discriminate.
Qed.

(** The loop over two runs of items is the loop over the first run,
    continued over the second. *)
Lemma load_loop_app (l1 l2 : list value) :
  forall acc,
    load_loop (l1 ++ l2) acc
    = (ts <- load_loop l1 acc ;; load_loop l2 ts).
Proof.
  induction l1 as [|item l1 IH]; intros acc; simpl; [reflexivity|].
  destruct (py_in "raw_text" item) as [[|]|e]; simpl; try reflexivity.
  - destruct (Task_kwargs item) as [t|e]; simpl; [apply IH | reflexivity].
  - destruct (py_in "description" item) as [[|]|e]; simpl; try reflexivity;
      [|apply IH].
    destruct (getitem item "description") as [r|e]; simpl; [|reflexivity].
    destruct (get item "deadline" (VStr "unspecified")) as [dl|e]; simpl;
      [|reflexivity].
    destruct (get item "priority" (VStr "medium")) as [p|e]; simpl;
      [apply IH | reflexivity].
Qed.

(** One turn of the loop on a dict that has the key "raw_text". *)
Lemma load_loop_current (entries : list (string * value))
    (rest : list value) (acc : list Task) :
  has_key "raw_text" entries = true ->
  load_loop (VDict entries :: rest) acc
  = (t <- Task_kwargs (VDict entries) ;; load_loop rest (acc ++ [t])).
Proof. intros H. cbn [load_loop py_in bind]. now rewrite H. Qed.

(** One turn of the loop on a dict of the old schema. *)
Lemma load_loop_legacy (entries : list (string * value)) (desc : value)
    (rest : list value) (acc : list Task) :
  has_key "raw_text" entries = false ->
  lookup "description" entries = Some desc ->
  load_loop (VDict entries :: rest) acc
  = load_loop rest
      (acc ++ [mkTask desc
                 (lookup_default "deadline" entries (VStr "unspecified"))
                 (lookup_default "priority" entries (VStr "medium"))]).
Proof.
  intros Hraw Hdesc. cbn [load_loop py_in bind]. rewrite Hraw.
  assert (Hk : has_key "description" entries = true)
    by (apply has_key_lookup; now exists desc).
  rewrite Hk. cbn [getitem get bind]. rewrite Hdesc. cbn [bind].
  unfold lookup_default.
  destruct (lookup "deadline" entries), (lookup "priority" entries);
    reflexivity.
Qed.

(** One turn of the loop on a dict of neither schema. *)
Lemma load_loop_unknown (entries : list (string * value))
    (rest : list value) (acc : list Task) :
  has_key "raw_text" entries = false ->
  has_key "description" entries = false ->
  load_loop (VDict entries :: rest) acc = load_loop rest acc.
Proof.
  intros Hraw Hdesc. cbn [load_loop py_in bind]. now rewrite Hraw, Hdesc.
Qed.

(** The only exception the loop raises is a TypeError. *)
Lemma load_loop_raises (items : list value) :
  forall acc e, load_loop items acc = Raises e -> e = TypeError.
Proof.
  induction items as [|item items IH]; intros acc e; simpl; [discriminate|].
  destruct item as [ | b | n | f | s | l | d]; simpl;
    try (intros H; injection H as <-; reflexivity).
  - (* str *)
    destruct (contains "raw_text" s); simpl.
    + intros H; injection H as <-; reflexivity.
    + destruct (contains "description" s); simpl; [|apply IH].
      intros H; injection H as <-; reflexivity.
  - (* list *)
    match goal with |- context [existsb ?f l] => destruct (existsb f l) end;
      simpl.
    + intros H; injection H as <-; reflexivity.
    + match goal with |- context [existsb ?f l] => destruct (existsb f l) end;
        simpl; [|apply IH].
      intros H; injection H as <-; reflexivity.
  - (* dict *)
    destruct (has_key "raw_text" d) eqn:Hraw; simpl.
    + destruct (forallb _ d); simpl;
        [|intros H; injection H as <-; reflexivity].
      destruct (lookup "raw_text" d), (lookup "deadline" d),
        (lookup "priority" d); simpl;
        try (intros H; injection H as <-; reflexivity); apply IH.
    + destruct (has_key "description" d) eqn:Hdesc; simpl; [|apply IH].
      apply has_key_lookup in Hdesc. destruct Hdesc as [v Hv].
      rewrite Hv. simpl.
      destruct (lookup "deadline" d), (lookup "priority" d); simpl; apply IH.
Qed.

(** On a readable JSON document [load_tasks] returns what the loop returns,
    and the empty list when the iteration or the loop raises. *)
Lemma load_tasks_Json (doc : value) :
  load_tasks (Json doc)
  = match iterate doc with
    | Returns items =>
        match load_loop items [] with
        | Returns ts => Returns ts
        | Raises _ => Returns []
        end
    | Raises _ => Returns []
    end.
Proof.
  unfold load_tasks. cbn [exists_ negb json_load bind].
  destruct doc; cbn [iterate bind catch handled]; try reflexivity;
    match goal with
    | |- context [load_loop ?l []] =>
        destruct (load_loop l []) as [ts|e] eqn:E
    end; cbn [catch]; try reflexivity;
    apply load_loop_raises in E; subst; reflexivity.
Qed.

(** A loop over strs only: nothing is appended. *)
Lemma load_loop_strs (items : list value) :
  Forall (fun v => exists s, v = VStr s) items ->
  forall acc ts, load_loop items acc = Returns ts -> ts = acc.
Proof.
  induction 1 as [|item items [s ->] _ IH]; intros acc ts; simpl.
  - intros H. now injection H.
  - destruct (contains "raw_text" s); simpl; [discriminate|].
    destruct (contains "description" s); simpl; [discriminate|]. apply IH.
Qed.

(** The loop on the dicts that [save_tasks] writes. *)
Lemma load_loop_saved (ts : list Task) :
  forall acc, load_loop (map Task_dict ts) acc = Returns (acc ++ ts).
Proof.
  induction ts as [|[r d p] ts IH]; intros acc; simpl.
  - now rewrite app_nil_r.
  - rewrite IH, <- app_assoc. reflexivity.
Qed.

End Loading.

Section LoadedRecords.

(** What one turn of the loop did when the whole loop returned: it built a
    record of the current schema, mapped a record of the old schema, or
    skipped the item. *)
Lemma load_loop_turn (item : value) (rest : list value)
    (acc ts : list Task) :
  load_loop (item :: rest) acc = Returns ts ->
  (exists entries t,
      item = VDict entries /\ has_key "raw_text" entries = true /\
      Task_kwargs item = Returns t /\
      load_loop rest (acc ++ [t]) = Returns ts)
  \/
  (exists entries desc,
      item = VDict entries /\ has_key "raw_text" entries = false /\
      lookup "description" entries = Some desc /\
      load_loop rest
        (acc ++ [mkTask desc
                   (lookup_default "deadline" entries (VStr "unspecified"))
                   (lookup_default "priority" entries (VStr "medium"))])
      = Returns ts)
  \/
  (py_in "raw_text" item = Returns false /\
   py_in "description" item = Returns false /\
   load_loop rest acc = Returns ts).
Proof.
  destruct item as [ | b | n | f | s | l | d];
    try (cbn [load_loop py_in bind]; discriminate).
  - cbn [load_loop py_in bind].
    destruct (contains "raw_text" s); [discriminate|].
    destruct (contains "description" s); [discriminate|].
    intros H. right. right. auto.
  - cbn [load_loop py_in bind].
    match goal with |- context [existsb ?f l] => destruct (existsb f l) end;
      [discriminate|].
    match goal with |- context [existsb ?f l] => destruct (existsb f l) end;
      [discriminate|].
    intros H. right. right. auto.
  - destruct (has_key "raw_text" d) eqn:Hraw.
    + rewrite (load_loop_current d rest acc Hraw).
      destruct (Task_kwargs (VDict d)) as [t|e] eqn:E; [|discriminate].
      intros H. left. exists d, t. auto.
    + destruct (lookup "description" d) as [desc|] eqn:Hdesc.
      * rewrite (load_loop_legacy d desc rest acc Hraw Hdesc).
        intros H. right. left. exists d, desc. auto.
      * apply has_key_false_lookup in Hdesc.
        rewrite (load_loop_unknown d rest acc Hraw Hdesc).
        intros H. right. right. cbn [py_in]. rewrite Hraw, Hdesc. auto.
Qed.

Lemma Task_kwargs_fields (entries : list (string * value)) (t : Task) :
  Task_kwargs (VDict entries) = Returns t ->
  exact_fields entries /\
  lookup "raw_text" entries = Some (raw_text t) /\
  lookup "deadline" entries = Some (deadline t) /\
  lookup "priority" entries = Some (priority t).
Proof.
  cbn [Task_kwargs].
  destruct (forallb _ entries) eqn:Hall; [|discriminate].
  destruct (lookup "raw_text" entries) as [r|] eqn:Hr; [|discriminate].
  destruct (lookup "deadline" entries) as [dl|] eqn:Hd; [|discriminate].
  destruct (lookup "priority" entries) as [p|] eqn:Hp; [|discriminate].
  intros H. injection H as <-. simpl. repeat split; trivial.
  - intros Hk. unfold has_key in Hk. apply existsb_exists in Hk.
    destruct Hk as [[k' v] [Hin Hk]]. apply String.eqb_eq in Hk. subst k'.
    rewrite forallb_forall in Hall. specialize (Hall _ Hin).
    cbv beta iota in Hall. apply existsb_exists in Hall. destruct Hall as [f [Hf Hkf]].
    apply String.eqb_eq in Hkf. now subst.
  - intros Hk. apply has_key_lookup. simpl in Hk.
    destruct Hk as [<-|[<-|[<-|[]]]]; eauto.
Qed.

(** When the loop returns, every dict among the items that has the key
    "raw_text" has exactly the three fields as its keys. *)
Lemma load_loop_exact (items : list value) :
  forall acc ts,
    load_loop items acc = Returns ts ->
    forall entries,
      In (VDict entries) items -> has_key "raw_text" entries = true ->
      exact_fields entries.
Proof.
  induction items as [|item items IH]; intros acc ts H entries Hin Hraw;
    [destruct Hin|].
  apply load_loop_turn in H.
  destruct Hin as [->|Hin].
  - destruct H as [[d [t [E [_ [K _]]]]] | [[d [desc [E [Hr _]]]] | [Hp _]]].
    + now apply Task_kwargs_fields in K.
    + injection E as <-. congruence.
    + cbn [py_in] in Hp. congruence.
  - destruct H as [[d [t [_ [_ [_ H]]]]] | [[d [desc [_ [_ [_ H]]]]] | [_ [_ H]]]];
      exact (IH _ _ H entries Hin Hraw).
Qed.

(** When the loop returns, the priorities of its records are the stored
    ones, or the default of the old schema: a property of every stored
    priority, and of "medium", is a property of the priority of every
    record loaded. *)
Lemma load_loop_priority (P : value -> Prop) (items : list value) :
  P (VStr "medium") ->
  (forall entries v,
      In (VDict entries) items -> lookup "priority" entries = Some v -> P v) ->
  forall acc ts,
    load_loop items acc = Returns ts ->
    Forall (fun t => P (priority t)) acc ->
    Forall (fun t => P (priority t)) ts.
Proof.
  intros Hmed. induction items as [|item items IH]; intros Hst acc ts H Hacc.
  - simpl in H. now injection H as <-.
  - assert (Hst' : forall entries v,
               In (VDict entries) items ->
               lookup "priority" entries = Some v -> P v)
      by (intros entries v Hin; apply Hst; now right).
    apply load_loop_turn in H.
    destruct H as [[d [t [E [_ [K H]]]]] | [[d [desc [E [_ [_ H]]]]] | [_ [_ H]]]].
    + apply (IH Hst' _ _ H). apply Forall_app. split; [assumption|].
      constructor; [|constructor]. subst item.
      apply Task_kwargs_fields in K. destruct K as [_ [_ [_ K]]].
      apply (Hst d); [now left | assumption].
    + apply (IH Hst' _ _ H). apply Forall_app. split; [assumption|].
      constructor; [|constructor]. subst item. simpl. unfold lookup_default.
      destruct (lookup "priority" d) as [v|] eqn:Hv; [|assumption].
      apply (Hst d); [now left | assumption].
    + exact (IH Hst' _ _ H Hacc).
Qed.

(** A document that is no list loads as the empty list. *)
Lemma load_tasks_not_a_list (doc : value) :
  (forall items, doc <> VList items) -> load_tasks (Json doc) = Returns [].
Proof.
  intros Hn. rewrite load_tasks_Json.
  destruct doc as [ | b | n | f | s | l | d]; cbn [iterate]; try reflexivity.
  - match goal with
    | |- context [load_loop ?l []] =>
        destruct (load_loop l []) as [ts|e] eqn:E
    end; [|reflexivity].
    apply load_loop_strs in E; [now subst|].
    apply Forall_forall. intros v Hv. apply in_map_iff in Hv.
    destruct Hv as [c [<- _]]. eauto.
  - now destruct (Hn l).
  - match goal with
    | |- context [load_loop ?l []] =>
        destruct (load_loop l []) as [ts|e] eqn:E
    end; [|reflexivity].
    apply load_loop_strs in E; [now subst|].
    apply Forall_forall. intros v Hv. apply in_map_iff in Hv.
    destruct Hv as [[k w] [<- _]]. eauto.
Qed.

End LoadedRecords.

(** C1, on the code: a task file whose bytes are not valid UTF-8 makes
    [load_tasks] raise UnicodeDecodeError, which its [except] clause does
    not list.  The other cases the claim names are handled as it says: no
    file, text that is not JSON, a document of the wrong shape and a record
    whose access raises all give the empty list, and a document that
    [json.load] returns always gives a list. *)
Theorem load_tasks_bad_encoding_raises :
  load_tasks NotUtf8 = Raises UnicodeDecodeError /\
  load_tasks NoFile = Returns [] /\
  load_tasks NotJson = Returns [] /\
  (forall doc, exists ts, load_tasks (Json doc) = Returns ts) /\
  (forall doc, (forall items, doc <> VList items) ->
               load_tasks (Json doc) = Returns []) /\
  (forall items e, load_loop items [] = Raises e ->
                   load_tasks (Json (VList items)) = Returns []).
Proof.
  repeat split; try reflexivity.
  - intros doc. rewrite load_tasks_Json.
    destruct (iterate doc) as [items|e]; [|now exists []].
    destruct (load_loop items []) as [ts|e]; eauto.
  - exact load_tasks_not_a_list.
  - intros items e H. rewrite load_tasks_Json. cbn [iterate]. now rewrite H.
Qed.

(** C2: saving a list of valid records and loading the file again gives the
    same list, record for record and in the same order. *)
Theorem save_load_round_trip (T : list Task) (d : disk) :
  Forall valid_task T ->
  load_tasks (save_tasks T d) = Returns T.
Proof.
  intros _. unfold save_tasks. rewrite load_tasks_Json. cbn [iterate].
  now rewrite load_loop_saved.
Qed.

(** C2 on two records, saved over a file that held something else. *)
Lemma save_load_round_trip_witness :
  let T := [mkTask (VStr "pay rent") (VStr "tomorrow") (VStr "high");
            mkTask (VStr "buy milk") (VStr "unspecified") (VStr "medium")] in
  Forall valid_task T /\ load_tasks (save_tasks T NotJson) = Returns T.
Proof.
  intros T.
  assert (H : Forall valid_task T).
  { repeat constructor; unfold is_text, is_level; simpl;
      try (eexists; split; [reflexivity | discriminate]); tauto. }
  split; [exact H | exact (save_load_round_trip T NotJson H)].
Defined.

(** C3 as stated fails: a record stored with the priority "urgent" is
    loaded with that priority, which is none of the three levels. *)
Lemma load_tasks_priority_unchecked :
  ~ (forall d ts,
        load_tasks d = Returns ts ->
        Forall (fun t => is_level (priority t)) ts).
Proof.
  intros H.
  specialize
    (H (Json (VList [VDict [("raw_text"%string, VStr "call the bank");
                            ("deadline"%string, VStr "today");
                            ("priority"%string, VStr "urgent")]]))
       [mkTask (VStr "call the bank") (VStr "today") (VStr "urgent")]
       eq_refl).
  inversion H as [|t ts Hl _]. simpl in Hl.
  destruct Hl as [E|[E|E]]; discriminate.
Qed.

(** C3, amended: [extract_priority] returns one of the three levels on
    every text, so every record built by [parse_task] has such a priority;
    [load_tasks] does not check the priority it reads, and the records it
    returns have one of the three levels whenever every priority stored in
    the records of the file is one of them (the default of the old schema,
    "medium", is one). *)
Theorem priority_levels :
  (forall text,
      In (extract_priority text) ["low"; "medium"; "high"]%string /\
      is_level (priority (parse_task text))) /\
  (forall d ts,
      (forall entries v items,
          d = Json (VList items) -> In (VDict entries) items ->
          lookup "priority" entries = Some v -> is_level v) ->
      load_tasks d = Returns ts ->
      Forall (fun t => is_level (priority t)) ts).
Proof.
  split.
  - intros text. pose proof (extract_priority_level text) as H.
    split; [|exact H]. unfold is_level in H. simpl.
    destruct H as [H|[H|H]]; injection H as ->; tauto.
  - intros d ts Hst Hload.
    destruct d as [ | | | doc | | | ]; try discriminate;
      try (injection Hload as <-; constructor).
    destruct doc as [ | b | n | f | s | items | entries];
      try (rewrite load_tasks_not_a_list in Hload by discriminate;
           injection Hload as <-; constructor).
    rewrite load_tasks_Json in Hload. cbn [iterate] in Hload.
    destruct (load_loop items []) as [ts'|e] eqn:E;
      injection Hload as <-; [|constructor].
    apply (load_loop_priority is_level items) with (acc := []);
      trivial.
    + unfold is_level; tauto.
    + intros entries v Hin Hv. exact (Hst entries v items eq_refl Hin Hv).
Qed.

(** C3, amended, on a file of one record of each schema. *)
Lemma priority_levels_witness :
  let d := Json (VList [VDict [("raw_text"%string, VStr "pay rent");
                               ("deadline"%string, VStr "tomorrow");
                               ("priority"%string, VStr "high")];
                        VDict [("description"%string, VStr "buy milk")]]) in
  let ts := [mkTask (VStr "pay rent") (VStr "tomorrow") (VStr "high");
             mkTask (VStr "buy milk") (VStr "unspecified") (VStr "medium")] in
  load_tasks d = Returns ts /\
  Forall (fun t => is_level (priority t)) ts.
Proof.
  intros d ts. split; [reflexivity|].
  refine (proj2 priority_levels d ts _ eq_refl).
  intros entries v items E Hin Hv. injection E as <-.
  unfold is_level. simpl in Hin.
  destruct Hin as [E|[E|[]]]; injection E as <-; simpl in Hv;
    [injection Hv as <-; tauto | discriminate].
Defined.

(** C4: in a file that holds a list, a record with neither the key
    "raw_text" nor the key "description" is skipped: the file loads as it
    would without that record, whatever stands before and after it; between
    saved records, the records before and after it are all loaded. *)
Theorem unknown_record_skipped (before after : list value)
    (entries : list (string * value)) :
  has_key "raw_text" entries = false ->
  has_key "description" entries = false ->
  load_tasks (Json (VList (before ++ VDict entries :: after)))
  = load_tasks (Json (VList (before ++ after))) /\
  (forall ts1 ts2,
      load_tasks
        (Json (VList (map Task_dict ts1 ++ VDict entries :: map Task_dict ts2)))
      = Returns (ts1 ++ ts2)).
Proof.
  intros Hraw Hdesc.
  assert (Hskip : forall b a,
             load_tasks (Json (VList (b ++ VDict entries :: a)))
             = load_tasks (Json (VList (b ++ a)))).
  { intros b a. rewrite !load_tasks_Json. cbn [iterate].
    rewrite !load_loop_app.
    destruct (load_loop b []) as [ts|e]; cbn [bind]; [|reflexivity].
    now rewrite (load_loop_unknown entries a ts Hraw Hdesc). }
  split; [apply Hskip|].
  intros ts1 ts2. rewrite Hskip, <- map_app, load_tasks_Json. cbn [iterate].
  now rewrite load_loop_saved.
Qed.

(** C4 on a file of three records: one of the old schema, one of neither
    schema, one of the current schema. *)
Lemma unknown_record_skipped_witness :
  let unknown := [("title"%string, VStr "water the plants")] in
  let old := VDict [("description"%string, VStr "buy milk")] in
  let new := VDict [("raw_text"%string, VStr "pay rent");
                    ("deadline"%string, VStr "tomorrow");
                    ("priority"%string, VStr "high")] in
  has_key "raw_text" unknown = false /\
  has_key "description" unknown = false /\
  load_tasks (Json (VList [old; VDict unknown; new]))
  = Returns [mkTask (VStr "buy milk") (VStr "unspecified") (VStr "medium");
             mkTask (VStr "pay rent") (VStr "tomorrow") (VStr "high")].
Proof.
  intros unknown old new. split; [reflexivity|]. split; [reflexivity|].
  exact (eq_trans
           (proj1 (unknown_record_skipped [old] [new] unknown
                     eq_refl eq_refl))
           eq_refl).
Defined.

(** C7: a dict without the key "raw_text" and with the key "description"
    becomes the record whose raw_text is the description, whose deadline is
    the stored one or "unspecified", and whose priority is the stored one or
    "medium"; the loop appends it and goes on, and a file of that one
    record loads as that one record. *)
Theorem legacy_record_mapping (entries : list (string * value))
    (desc : value) :
  has_key "raw_text" entries = false ->
  lookup "description" entries = Some desc ->
  let mapped :=
    mkTask desc
      (lookup_default "deadline" entries (VStr "unspecified"))
      (lookup_default "priority" entries (VStr "medium")) in
  (forall rest acc,
      load_loop (VDict entries :: rest) acc
      = load_loop rest (acc ++ [mapped])) /\
  load_tasks (Json (VList [VDict entries])) = Returns [mapped].
Proof.
  intros Hraw Hdesc mapped. split.
  - intros rest acc. exact (load_loop_legacy entries desc rest acc Hraw Hdesc).
  - rewrite load_tasks_Json. cbn [iterate].
    now rewrite (load_loop_legacy entries desc [] [] Hraw Hdesc).
Qed.

(** C7 on the record with a description and a priority and no deadline. *)
Lemma legacy_record_mapping_witness :
  let entries := [("description"%string, VStr "x");
                  ("priority"%string, VStr "high")] in
  has_key "raw_text" entries = false /\
  lookup "description" entries = Some (VStr "x") /\
  load_tasks (Json (VList [VDict entries]))
  = Returns [mkTask (VStr "x") (VStr "unspecified") (VStr "high")].
Proof.
  intros entries. split; [reflexivity|]. split; [reflexivity|].
  exact (proj2 (legacy_record_mapping entries (VStr "x") eq_refl eq_refl)).
Defined.

(** C10: when some record of the list has the key "raw_text" and its key
    set is not exactly the three fields, [load_tasks] returns the empty
    list, whatever the other records are. *)
Theorem inexact_record_empties_load (items : list value)
    (entries : list (string * value)) :
  In (VDict entries) items ->
  has_key "raw_text" entries = true ->
  ~ exact_fields entries ->
  Task_kwargs (VDict entries) = Raises TypeError /\
  load_tasks (Json (VList items)) = Returns [].
Proof.
  intros Hin Hraw Hne. split.
  - destruct (Task_kwargs (VDict entries)) as [t|e] eqn:E.
    + apply Task_kwargs_fields in E. tauto.
    + cbn [Task_kwargs] in E.
      destruct (forallb _ entries); [|now injection E as <-].
      destruct (lookup "raw_text" entries), (lookup "deadline" entries),
        (lookup "priority" entries); try discriminate; now injection E as <-.
  - rewrite load_tasks_Json. cbn [iterate].
    destruct (load_loop items []) as [ts|e] eqn:E; [|reflexivity].
    exfalso. apply Hne. exact (load_loop_exact items [] ts E entries Hin Hraw).
Qed.

(** C10 on a file of two saved records and, between them, a record with
    the key "raw_text" that lacks "priority": nothing is loaded.  The same
    holds for a record with a fourth key. *)
Lemma inexact_record_empties_load_witness :
  let good1 := Task_dict (mkTask (VStr "pay rent") (VStr "tomorrow")
                                 (VStr "high")) in
  let good2 := Task_dict (mkTask (VStr "buy milk") (VStr "unspecified")
                                 (VStr "medium")) in
  let short := [("raw_text"%string, VStr "call the bank");
                ("deadline"%string, VStr "today")] in
  In (VDict short) [good1; VDict short; good2] /\
  has_key "raw_text" short = true /\
  ~ exact_fields short /\
  load_tasks (Json (VList [good1; VDict short; good2])) = Returns [].
Proof.
  intros good1 good2 short.
  assert (Hin : In (VDict short) [good1; VDict short; good2])
    by (simpl; tauto).
  assert (Hne : ~ exact_fields short).
  { intros H. specialize (H "priority"%string).
    assert (false = true) by (apply H; simpl; tauto). discriminate. }
  split; [exact Hin|]. split; [reflexivity|]. split; [exact Hne|].
  exact (proj2 (inexact_record_empties_load _ short Hin eq_refl Hne)).
Defined.

(* ================================================================= *)
(** ** Deleting a task *)

Section Deleting.

Lemma print_rows_strs (ts : list Task) :
  Forall str_priority ts -> print_rows ts = Returns tt.
Proof.
  induction 1 as [|t ts [s Hs] _ IH]; simpl; [reflexivity|].
  unfold upper_priority. now rewrite Hs.
Qed.

Lemma view_tasks_strs (st : state) :
  Forall str_priority (tasks st) ->
  tasks st <> [] ->
  view_tasks st = Returns (print (Listing (tasks st)) st).
Proof.
  intros Hs Hne. unfold view_tasks.
  destruct (tasks st) as [|t ts] eqn:E; [congruence|].
  now rewrite (print_rows_strs _ Hs).
Qed.

(** Popping at a position inside the list. *)
Lemma list_pop_inside (l : list Task) (idx : Z) :
  (1 <= idx <= Z.of_nat (List.length l))%Z ->
  exists removed,
    nth_error l (Z.to_nat (idx - 1)) = Some removed /\
    list_pop l (idx - 1)
    = Returns (removed,
               firstn (Z.to_nat (idx - 1)) l ++ skipn (Z.to_nat idx) l).
Proof.
  intros H. unfold list_pop.
  assert (E1 : (idx - 1 <? 0)%Z = false) by (apply Z.ltb_ge; lia).
  rewrite E1.
  assert (E2 : ((0 <=? idx - 1) && (idx - 1 <? Z.of_nat (List.length l)))%Z
               = true).
  { apply andb_true_iff. split; [apply Z.leb_le | apply Z.ltb_lt]; lia. }
  rewrite E2.
  destruct (nth_error l (Z.to_nat (idx - 1))) as [x|] eqn:E.
  - exists x. split; [reflexivity|].
    replace (S (Z.to_nat (idx - 1))) with (Z.to_nat idx) by lia. reflexivity.
  - apply nth_error_None in E. lia.
Qed.

Lemma list_pop_raises (l : list Task) (i : Z) (e : exn) :
  list_pop l i = Raises e -> e = IndexError.
Proof.
  unfold list_pop.
  destruct (_ && _)%bool; [|intros H; now injection H as <-].
  destruct (nth_error _ _); [discriminate|]. intros H; now injection H as <-.
Qed.

Lemma nth_error_removed (l : list Task) (k j : nat) :
  (j < k -> nth_error (firstn k l ++ skipn (S k) l) j = nth_error l j) /\
  (k <= j -> k < List.length l ->
   nth_error (firstn k l ++ skipn (S k) l) j = nth_error l (S j)).
Proof.
  split.
  - intros Hj. destruct (Nat.lt_ge_cases j (List.length l)) as [Hl|Hl].
    + rewrite nth_error_app1 by (rewrite length_firstn; lia).
      rewrite nth_error_firstn.
      destruct (Nat.ltb_spec j k); [reflexivity | lia].
    + transitivity (@None Task); [|symmetry]; apply nth_error_None;
        [|assumption].
      rewrite length_app, length_firstn, length_skipn. lia.
  - intros Hj Hk.
    rewrite nth_error_app2 by (rewrite length_firstn; lia).
    rewrite length_firstn, nth_error_skipn. f_equal. lia.
Qed.

End Deleting.

(** C8 as stated fails: the file of the one record
    [{"description": "call mum", "priority": null}] loads as a list of one
    record whose priority is None; on that list [delete_task] raises
    AttributeError while it prints the listing, for the number 1 as for the
    number 0: nothing is removed and no notice is printed. *)
Lemma delete_task_raises_on_loaded_list :
  ~ (forall d ts idx,
        load_tasks d = Returns ts ->
        let st := mkState ts d [] in
        ((idx < 1 \/ Z.of_nat (List.length ts) < idx)%Z ->
         exists st',
           delete_task st (Returns idx) = Returns st' /\
           tasks st' = ts /\ file st' = d) /\
        ((1 <= idx <= Z.of_nat (List.length ts))%Z ->
         exists st',
           delete_task st (Returns idx) = Returns st' /\
           List.length (tasks st') = List.length ts - 1)).
Proof.
  intros H.
  pose (d := Json (VList [VDict [("description"%string, VStr "call mum");
                                 ("priority"%string, VNone)]])).
  destruct (H d [mkTask (VStr "call mum") (VStr "unspecified") VNone] 1%Z
              eq_refl) as [_ Hin].
  destruct Hin as [st' [E _]]; [simpl; lia|]. discriminate E.
Qed.

(** C8, amended: on a list whose records have str priorities,
    [delete_task] with a number outside 1..length leaves the list and the
    file as they were and prints a notice ("No tasks to delete." on the
    empty list, the listing and "Invalid number." otherwise); with a number
    inside the range it removes the record at that position, keeps the
    records before it in place, moves every later record one position down,
    and writes the whole remaining list to the file: the file then holds
    the dicts of the remaining records, in order, and loads as the
    remaining list. *)
Theorem delete_task_bounds (st : state) (idx : Z) :
  Forall str_priority (tasks st) ->
  let n := List.length (tasks st) in
  let k := Z.to_nat (idx - 1) in
  ((idx < 1 \/ Z.of_nat n < idx)%Z ->
   delete_task st (Returns idx)
   = Returns
       (mkState (tasks st) (file st)
          (console st ++
             match tasks st with
             | [] => [NoTasksToDelete]
             | _ => [Listing (tasks st); InvalidNumber]
             end))) /\
  ((1 <= idx <= Z.of_nat n)%Z ->
   exists removed remaining,
     nth_error (tasks st) k = Some removed /\
     delete_task st (Returns idx)
     = Returns
         (mkState remaining (Json (VList (map Task_dict remaining)))
            (console st ++ [Listing (tasks st); Deleted (raw_text removed)]))
     /\
     load_tasks (Json (VList (map Task_dict remaining))) = Returns remaining /\
     List.length remaining = n - 1 /\
     (forall j, j < k -> nth_error remaining j = nth_error (tasks st) j) /\
     (forall j, k <= j ->
                nth_error remaining j = nth_error (tasks st) (S j))).
Proof.
  intros Hs n k.
  assert (Hview : tasks st <> [] ->
                  delete_task st (Returns idx)
                  = if ((1 <=? idx) && (idx <=? Z.of_nat n))%Z
                    then
                      '(removed, remaining) <- list_pop (tasks st) (idx - 1) ;;
                      Returns
                        (mkState remaining (save_tasks remaining (file st))
                           (console st ++
                              [Listing (tasks st); Deleted (raw_text removed)]))
                    else
                      Returns
                        (mkState (tasks st) (file st)
                           (console st ++ [Listing (tasks st); InvalidNumber]))).
  { intros Hne. unfold delete_task.
    destruct (tasks st) as [|t ts] eqn:Et; [congruence|].
    cbv beta iota. rewrite <- Et in Hs, Hne.
    rewrite (view_tasks_strs st Hs Hne).
    cbn [bind print tasks file console]. subst n. rewrite <- Et.
    destruct ((1 <=? idx) && (idx <=? Z.of_nat (List.length (tasks st))))%Z.
    - destruct (list_pop (tasks st) (idx - 1)) as [[removed remaining]|e] eqn:Ep;
        cbn [bind catch].
      + unfold print. cbn [tasks file console]. now rewrite <- app_assoc.
      + now rewrite (list_pop_raises _ _ _ Ep).
    - cbn [catch]. unfold print. cbn [tasks file console].
      now rewrite <- app_assoc. }
  split.
  - intros Hout.
    destruct (tasks st) as [|t ts] eqn:Et.
    + unfold delete_task, print. now rewrite Et.
    + rewrite Hview by discriminate.
      assert (E : ((1 <=? idx) && (idx <=? Z.of_nat n))%Z = false).
      { apply andb_false_iff.
        destruct Hout; [left | right]; apply Z.leb_gt; lia. }
      now rewrite E.
  - intros Hin.
    destruct (list_pop_inside (tasks st) idx Hin) as [removed [Hnth Hpop]].
    fold k in Hnth, Hpop.
    exists removed, (firstn k (tasks st) ++ skipn (Z.to_nat idx) (tasks st)).
    assert (Hk : k < n) by (apply nth_error_Some; congruence).
    assert (Ek : Z.to_nat idx = S k) by (unfold k; lia).
    split; [assumption|]. split; [|split; [|split; [|split]]].
    + rewrite Hview by (intros E; subst n; rewrite E in Hk; simpl in Hk; lia).
      assert (E : ((1 <=? idx) && (idx <=? Z.of_nat n))%Z = true).
      { apply andb_true_iff. split; apply Z.leb_le; lia. }
      now rewrite E, Hpop.
    + rewrite load_tasks_Json. cbn [iterate]. now rewrite load_loop_saved.
    + rewrite length_app, length_firstn, length_skipn. fold n. lia.
    + intros j Hj. rewrite Ek.
      exact (proj1 (nth_error_removed (tasks st) k j) Hj).
    + intros j Hj. rewrite Ek.
      exact (proj2 (nth_error_removed (tasks st) k j) Hj Hk).
Qed.

(** C8, amended, on a list of three records: the number 2 removes the
    second record and the file then holds the other two; the numbers 0 and
    4 change nothing. *)
Lemma delete_task_bounds_witness :
  let a := mkTask (VStr "pay rent") (VStr "tomorrow") (VStr "high") in
  let b := mkTask (VStr "buy milk") (VStr "unspecified") (VStr "medium") in
  let c := mkTask (VStr "call mum") (VStr "by sunday") (VStr "medium") in
  let st := mkState [a; b; c] (save_tasks [a; b; c] NoFile) [] in
  Forall str_priority (tasks st) /\
  (exists removed remaining,
      nth_error (tasks st) 1 = Some removed /\
      delete_task st (Returns 2%Z)
      = Returns
          (mkState remaining (Json (VList (map Task_dict remaining)))
             [Listing [a; b; c]; Deleted (raw_text removed)]) /\
      load_tasks (Json (VList (map Task_dict remaining))) = Returns remaining /\
      List.length remaining = 2 /\
      (forall j, j < 1 -> nth_error remaining j = nth_error (tasks st) j) /\
      (forall j, 1 <= j ->
                 nth_error remaining j = nth_error (tasks st) (S j))) /\
  delete_task st (Returns 0%Z)
  = Returns (mkState [a; b; c] (file st) [Listing [a; b; c]; InvalidNumber]) /\
  delete_task st (Returns 4%Z)
  = Returns (mkState [a; b; c] (file st) [Listing [a; b; c]; InvalidNumber]).
Proof.
  intros a b c st.
  assert (H : Forall str_priority (tasks st))
    by (repeat constructor; eexists; reflexivity).
  split; [exact H|]. split; [|split].
  - apply (proj2 (delete_task_bounds st 2 H)). simpl. lia.
  - apply (proj1 (delete_task_bounds st 0 H)). simpl. lia.
  - apply (proj1 (delete_task_bounds st 4 H)). simpl. lia.
Defined.

(* ================================================================= *)
(** ** More on extraction *)

Section PriorityTable.

Lemma any_in_occurs (words : list string) (text : string) :
  any_in words text = true <->
  exists w, In w words /\ Substring w text.
Proof.
  unfold any_in. rewrite existsb_exists.
  split; intros [w [Hin H]]; exists w; split; trivial;
    now apply contains_Substring.
Qed.

Lemma lower_char_idempotent (c : ascii) :
  lower_char (lower_char c) = lower_char c.
Proof.
  destruct c as [[] [] [] [] [] [] [] []]; vm_compute; reflexivity.
Qed.

Lemma lower_idempotent (s : string) : lower (lower s) = lower s.
Proof.
  induction s as [|c s IH]; simpl; [reflexivity|].
  now rewrite lower_char_idempotent, IH.
Qed.

End PriorityTable.

Lemma priority_decided (text : string) :
  let low := exists p, In p LOW_PRIORITY_PHRASES /\ Substring p (lower text) in
  let high :=
    exists w, In w PRIORITY_KEYWORDS_high /\ Substring w (lower text) in
  (extract_priority text = "low"%string <-> low) /\
  (extract_priority text = "high"%string <-> ~ low /\ high) /\
  (extract_priority text = "medium"%string <-> ~ low /\ ~ high).
Proof.
  intros low high. unfold extract_priority.
  pose proof (any_in_occurs LOW_PRIORITY_PHRASES (lower text)) as Hl.
  pose proof (any_in_occurs PRIORITY_KEYWORDS_high (lower text)) as Hh.
  fold low in Hl. fold high in Hh.
  destruct (any_in LOW_PRIORITY_PHRASES (lower text)).
  - assert (low) by now apply Hl.
    repeat split; try tauto; try discriminate.
  - assert (~ low) by (intros L; apply Hl in L; discriminate).
    destruct (any_in PRIORITY_KEYWORDS_high (lower text)).
    + assert (high) by now apply Hh.
      repeat split; try tauto; try discriminate.
    + assert (~ high) by (intros L; apply Hh in L; discriminate).
      destruct (any_in PRIORITY_KEYWORDS_medium (lower text));
        repeat split; try tauto; try discriminate.
Qed.

(** X1: the priority of a text is decided by its lowercased form alone:
    "low" exactly when a low-priority phrase occurs in it, "high" exactly
    when none does and a high-priority keyword occurs, and "medium" in every
    other case, whether a medium keyword occurs or not. *)
Theorem extract_priority_table (text : string) :
  let low := exists p, In p LOW_PRIORITY_PHRASES /\ Substring p (lower text) in
  let high :=
    exists w, In w PRIORITY_KEYWORDS_high /\ Substring w (lower text) in
  (extract_priority text = "low"%string <-> low) /\
  (extract_priority text = "high"%string <-> ~ low /\ high) /\
  (extract_priority text = "medium"%string <-> ~ low /\ ~ high).
Proof. exact (priority_decided text). Qed.

(** X2: extraction does not see the case of the letters: the text and its
    lowercased form have the same deadline and the same priority. *)
Theorem extraction_ignores_case (text : string) :
  extract_deadline (lower text) = extract_deadline text /\
  extract_priority (lower text) = extract_priority text.
Proof.
  unfold extract_deadline, extract_priority.
  now rewrite lower_idempotent.
Qed.

Section FirstAttempt.

Local Open Scope string_scope.

Lemma hd_error_flat_map {A B : Type} (f : A -> list B) (l : list A) (y : B) :
  hd_error (flat_map f l) = Some y ->
  exists x, In x l /\ hd_error (f x) = Some y.
Proof.
  induction l as [|x l IH]; simpl; [discriminate|].
  destruct (f x) as [|z zs] eqn:E; simpl.
  - intros H. destruct (IH H) as [x' [Hin Hx]]. exists x'. auto.
  - intros H. exists x. rewrite E. auto.
Qed.

(** The first attempt of a sequence: some attempt of its first part,
    followed by the first attempt of its second part on what is left. *)
Lemma first_attempt_Seq (r1 r2 : regex) (s m rest : string) :
  hd_error (attempts (Seq r1 r2) s) = Some (m, rest) ->
  exists m1 s1 m2,
    In (m1, s1) (attempts r1 s) /\
    hd_error (attempts r2 s1) = Some (m2, rest) /\
    m = m1 ++ m2.
Proof.
  cbn [attempts]. intros H. apply hd_error_flat_map in H.
  destruct H as [[m1 s1] [Hin H]]. cbv beta iota in H.
  destruct (attempts r2 s1) as [|[m2 s2] l] eqn:E; [discriminate|].
  simpl in H. injection H as <- <-. exists m1, s1, m2.
  rewrite E. repeat split; trivial.
Qed.

Lemma starts_with_append (a b s : string) :
  starts_with (a ++ b) s = true -> starts_with a s = true.
Proof.
  intros H. apply starts_with_split in H. destruct H as [post ->].
  apply starts_with_split. exists (b ++ post). now rewrite append_assoc.
Qed.

(** The first attempt of the alternation of the units is never a plural:
    "day" is tried before "days", "week" before "weeks" and "month" before
    "months". *)
Lemma first_attempt_unit (s u rest : string) :
  hd_error (attempts (one_of "day" (tl units)) s) = Some (u, rest) ->
  In u returned_units.
Proof.
  cbn [units tl one_of attempts].
  pose proof (starts_with_append "day" "s" s) as Hd.
  pose proof (starts_with_append "week" "s" s) as Hw.
  pose proof (starts_with_append "month" "s" s) as Hm.
  cbn [append] in Hd, Hw, Hm.
  destruct (starts_with "day" s).
  { simpl. intros H. injection H as <- _. simpl. tauto. }
  destruct (starts_with "days" s); [now discriminate Hd|].
  destruct (starts_with "week" s).
  { simpl. intros H. injection H as <- _. simpl. tauto. }
  destruct (starts_with "weeks" s); [now discriminate Hw|].
  destruct (starts_with "month" s).
  { simpl. intros H. injection H as <- _. simpl. tauto. }
  destruct (starts_with "months" s); [now discriminate Hm|].
  discriminate.
Qed.

Lemma match_here_first (r : regex) (s m : string) :
  match_here r s = Some m <->
  exists rest, hd_error (attempts r s) = Some (m, rest).
Proof.
  unfold match_here. destruct (attempts r s) as [|[m' rest'] l]; simpl.
  - split; [discriminate | intros [rest H]; discriminate].
  - split.
    + intros H. injection H as ->. now exists rest'.
    + intros [rest H]. now injection H as -> _.
Qed.

Lemma search_match_here (r : regex) (text m : string) :
  search r text = Some m -> exists s, match_here r s = Some m.
Proof.
  induction text as [|c text IH]; simpl.
  - destruct (match_here r "") eqn:E; [|discriminate].
    intros H. injection H as ->. now exists "".
  - destruct (match_here r (String c text)) eqn:E; [|assumption].
    intros H. injection H as ->. now exists (String c text).
Qed.

(** What the third pattern returns: "within", a number and a unit in the
    singular. *)
Lemma within_singular (text m : string) :
  nth_error DEADLINE_REGEXES 2 = Some
    (Seq (Lit "within ")
       (Seq DigitPlus (Seq (Lit " ") (one_of "day" (tl units))))) /\
  (search
     (Seq (Lit "within ")
        (Seq DigitPlus (Seq (Lit " ") (one_of "day" (tl units))))) text
   = Some m ->
   exists n u,
     n <> "" /\ all is_digit n = true /\ In u returned_units /\
     m = "within " ++ n ++ " " ++ u).
Proof.
  split; [reflexivity|]. intros H.
  apply search_match_here in H. destruct H as [s H].
  apply match_here_first in H. destruct H as [rest H].
  apply first_attempt_Seq in H. destruct H as [w [s1 [m2 [Hw [H ->]]]]].
  apply attempts_sound in Hw. destruct Hw as [_ Hw].
  apply matches_Lit in Hw. subst w.
  apply first_attempt_Seq in H. destruct H as [n [s2 [m3 [Hn [H ->]]]]].
  apply attempts_sound in Hn. destruct Hn as [_ Hn].
  apply matches_DigitPlus in Hn. destruct Hn as [Hne Hd].
  apply first_attempt_Seq in H. destruct H as [sp [s3 [u [Hsp [H ->]]]]].
  apply attempts_sound in Hsp. destruct Hsp as [_ Hsp].
  apply matches_Lit in Hsp. subst sp.
  apply first_attempt_unit in H.
  exists n, u. repeat split; assumption.
Qed.

(** The loop over the patterns returns the default or what the search for
    one of the patterns returned. *)
Lemma first_match_search (regexes : list regex) (text : string) :
  first_match regexes text = "unspecified" \/
  exists i r,
    nth_error regexes i = Some r /\
    search r text = Some (first_match regexes text).
Proof.
  induction regexes as [|r rest IH]; simpl; [now left|].
  destruct (search r text) as [m|] eqn:E.
  - right. now exists 0, r.
  - destruct IH as [IH | [i [r' [Hn Hs]]]]; [now left|].
    right. now exists (S i), r'.
Qed.

End FirstAttempt.

Lemma deadline_values (text : string) :
  let d := extract_deadline text in
  d = "unspecified"%string \/ d = "today"%string \/ d = "tomorrow"%string \/
  (exists n u,
      n <> ""%string /\ all is_digit n = true /\ In u returned_units /\
      d = ("within " ++ n ++ " " ++ u)%string) \/
  (exists p w,
      In p ["by "; "this "; "next "]%string /\ In w weekdays /\
      d = (p ++ w)%string) \/
  d = "next week"%string \/ d = "next month"%string.
Proof.
  intros d. unfold d, extract_deadline.
  destruct (first_match_search DEADLINE_REGEXES (lower text))
    as [E | [i [r [Hn Hs]]]]; [now left|].
  set (m := first_match DEADLINE_REGEXES (lower text)) in *.
  destruct (Nat.eq_dec i 2) as [->|Hi].
  - destruct (within_singular (lower text) m) as [E W].
    rewrite E in Hn. injection Hn as <-.
    right. right. right. left. exact (W Hs).
  - apply search_Some in Hs. destruct Hs as [_ [_ [_ [M _]]]].
    apply (deadline_phrase_matches i r m Hn) in M.
    assert (Hlt : i < 7).
    { change 7 with (List.length DEADLINE_REGEXES).
      apply nth_error_Some. congruence. }
    destruct i as [|[|[|[|[|[|[|i]]]]]]]; cbn [deadline_phrase] in M;
      try lia; try tauto.
    + destruct M as [w [Hw ->]]. do 4 right. left.
      exists "by "%string, w. simpl; tauto.
    + destruct M as [w [Hw ->]]. do 4 right. left.
      exists "this "%string, w. simpl; tauto.
    + destruct M as [w [Hw ->]]. do 4 right. left.
      exists "next "%string, w. simpl; tauto.
Qed.

(** X3: the values [extract_deadline] can return: "unspecified", "today",
    "tomorrow", "within" followed by a number and "day", "week" or "month",
    a weekday after "by", "this" or "next", "next week" or "next month".
    A unit in the plural is never returned: on "within 3 days" the result is
    "within 3 day". *)
Theorem extract_deadline_range (text : string) :
  let d := extract_deadline text in
  d = "unspecified"%string \/ d = "today"%string \/ d = "tomorrow"%string \/
  (exists n u,
      n <> ""%string /\ all is_digit n = true /\ In u returned_units /\
      d = ("within " ++ n ++ " " ++ u)%string) \/
  (exists p w,
      In p ["by "; "this "; "next "]%string /\ In w weekdays /\
      d = (p ++ w)%string) \/
  d = "next week"%string \/ d = "next month"%string.
Proof. exact (deadline_values text). Qed.

(** X4: the deadline is "today" exactly when "today" occurs in the
    lowercased text, whatever else occurs in it; the priority of such a text
    is never "medium", as "today" is also a high-priority keyword. *)
Theorem deadline_today (text : string) :
  (extract_deadline text = "today"%string <->
   Substring "today" (lower text)) /\
  (extract_deadline text = "today"%string ->
   extract_priority text = "high"%string \/
   extract_priority text = "low"%string).
Proof.
  assert (Hiff : extract_deadline text = "today"%string <->
                 Substring "today" (lower text)).
  { unfold extract_deadline.
    change (first_match DEADLINE_REGEXES (lower text))
      with (match search (Lit "today") (lower text) with
            | Some m => m
            | None => first_match (tl DEADLINE_REGEXES) (lower text)
            end).
    split.
    - intros H.
      destruct (search (Lit "today") (lower text)) as [m|] eqn:E.
      + subst m. apply search_Some in E.
        destruct E as [pre [post [E _]]]. now exists pre, post.
      + exfalso.
        destruct (first_match_spec (tl DEADLINE_REGEXES) (lower text))
          as [[E' _] | [i [r [Hn [_ [M _]]]]]].
        * rewrite H in E'. discriminate.
        * rewrite H in M.
          apply (deadline_phrase_matches (S i) r "today") in M;
            [|exact Hn].
          destruct i as [|[|[|[|[|[|i]]]]]]; cbn [deadline_phrase] in M.
          -- discriminate.
          -- destruct M as [n [u [_ [_ [_ M]]]]]. discriminate.
          -- destruct M as [w [_ M]]. discriminate.
          -- destruct M as [w [_ M]]. discriminate.
          -- destruct M as [w [_ M]]. discriminate.
          -- destruct M; discriminate.
          -- exact M.
    - intros S.
      destruct (search (Lit "today") (lower text)) as [m|] eqn:E.
      + apply search_Some in E. destruct E as [_ [_ [_ [M _]]]].
        now apply matches_Lit in M.
      + exfalso. apply search_None in E. apply E.
        exists "today"%string. split; [constructor | assumption]. }
  split; [exact Hiff|]. intros H. apply Hiff in H.
  destruct (priority_decided text) as [_ [Hh Hm]].
  pose proof (extract_priority_level text) as L. unfold is_level in L.
  destruct L as [L|[L|L]]; injection L as L; auto.
  exfalso. apply Hm in L. destruct L as [_ L]. apply L.
  exists "today"%string. split; [simpl; tauto | assumption].
Qed.

(** X4 on "Finish the report TODAY". *)
Lemma deadline_today_witness :
  extract_deadline "Finish the report TODAY" = "today"%string /\
  (extract_priority "Finish the report TODAY" = "high"%string \/
   extract_priority "Finish the report TODAY" = "low"%string).
Proof.
  assert (H : extract_deadline "Finish the report TODAY" = "today"%string)
    by reflexivity.
  split; [exact H|].
  exact (proj2 (deadline_today "Finish the report TODAY") H).
Defined.

(* ================================================================= *)
(** ** Stripping and the records that are built *)

Section Stripping.

Local Open Scope string_scope.

Lemma lstrip_empty (s : string) :
  lstrip s = "" <-> all is_space s = true.
Proof.
  induction s as [|c s IH]; simpl; [tauto|].
  destruct (is_space c); simpl; [exact IH|].
  split; discriminate.
Qed.

Lemma rstrip_empty (s : string) :
  rstrip s = "" <-> all is_space s = true.
Proof.
  induction s as [|c s IH]; simpl; [tauto|].
  destruct (rstrip s) as [|d k] eqn:E.
  - destruct (is_space c); simpl.
    + split; [intros _; now apply IH | reflexivity].
    + split; discriminate.
  - split; [discriminate|]. intros H. apply andb_prop in H.
    destruct H as [_ H]. apply IH in H. discriminate.
Qed.

(** What [lstrip] leaves is empty or starts with a character that is no
    whitespace. *)
Lemma lstrip_head (s : string) :
  lstrip s = "" \/ exists c rest, lstrip s = String c rest /\ is_space c = false.
Proof.
  induction s as [|c s IH]; simpl; [now left|].
  destruct (is_space c) eqn:E; [exact IH|]. right. now exists c, s.
Qed.

Lemma rstrip_head (c : ascii) (s : string) :
  is_space c = false -> exists rest, rstrip (String c s) = String c rest.
Proof.
  intros H. simpl. destruct (rstrip s) as [|d k].
  - rewrite H. now exists "".
  - now exists (String d k).
Qed.

Lemma rstrip_idempotent (s : string) : rstrip (rstrip s) = rstrip s.
Proof.
  induction s as [|c s IH]; simpl; [reflexivity|].
  destruct (rstrip s) as [|d k] eqn:E.
  - destruct (is_space c) eqn:Hc; simpl; [reflexivity|]. now rewrite Hc.
  - simpl in *. now rewrite IH.
Qed.

Lemma strip_empty (s : string) : strip s = "" <-> all is_space s = true.
Proof.
  unfold strip. rewrite rstrip_empty. split.
  - intros H. destruct (lstrip_head s) as [E | [c [rest [E Hc]]]].
    + now apply lstrip_empty.
    + rewrite E in H. simpl in H. now rewrite Hc in H.
  - intros H. apply lstrip_empty in H. now rewrite H.
Qed.

(** What [strip] returns has no whitespace at either end. *)
Lemma strip_trimmed (s : string) : trimmed (strip s).
Proof.
  unfold trimmed, strip. split; [|apply rstrip_idempotent].
  destruct (lstrip_head s) as [E | [c [rest [E Hc]]]].
  - now rewrite E.
  - rewrite E. destruct (rstrip_head c rest Hc) as [k ->].
    simpl. now rewrite Hc.
Qed.

Lemma strip_idempotent (s : string) : strip (strip s) = strip s.
Proof.
  destruct (strip_trimmed s) as [Hl Hr]. unfold strip at 1.
  now rewrite Hl, Hr.
Qed.

Lemma blank_or_not (s : string) :
  all is_space s = false <-> strip s <> "".
Proof.
  rewrite strip_empty. destruct (all is_space s); split; congruence.
Qed.

Lemma extract_deadline_nonempty (text : string) :
  extract_deadline text <> "".
Proof.
  destruct (deadline_values text)
    as [E|[E|[E|[[n [u [_ [_ [_ E]]]]]|[[p [w [Hp [_ E]]]]|[E|E]]]]]];
    rewrite E; try discriminate.
  simpl in Hp. destruct Hp as [<-|[<-|[<-|[]]]]; discriminate.
Qed.

End Stripping.

Lemma parse_task_valid_iff (user_input : string) :
  valid_task (parse_task user_input) <-> all is_space user_input = false.
Proof.
  rewrite blank_or_not. unfold valid_task, parse_task, is_text. simpl.
  split.
  - intros [[s [E Hs]] _]. now injection E as ->.
  - intros H. split; [eauto|]. split.
    + exists (extract_deadline user_input).
      split; [reflexivity | apply extract_deadline_nonempty].
    + apply extract_priority_level.
Qed.

(** X5: the record [parse_task] builds is valid exactly when its input is
    not blank: the deadline is never empty and the priority is always a
    level, so only an empty stripped text breaks validity. *)
Theorem parse_task_valid (user_input : string) :
  valid_task (parse_task user_input) <-> all is_space user_input = false.
Proof. exact (parse_task_valid_iff user_input). Qed.

(** X6: [add_task] keeps a list of valid records valid, whatever is typed.
    A blank line adds nothing.  Any other line appends exactly one record,
    at the end: its raw_text is the stripped line, which is not empty and
    has no whitespace at either end, its deadline and priority are those
    extracted from the stripped line, and it is valid. *)
Theorem add_task_keeps_valid (st : state) (line : string) :
  Forall valid_task (tasks st) ->
  Forall valid_task (tasks (add_task st line)) /\
  (all is_space line = true -> tasks (add_task st line) = tasks st) /\
  (all is_space line = false ->
   let t := mkTask (VStr (strip line))
                   (VStr (extract_deadline (strip line)))
                   (VStr (extract_priority (strip line))) in
   tasks (add_task st line) = tasks st ++ [t] /\
   valid_task t /\
   strip line <> ""%string /\ trimmed (strip line)).
Proof.
  intros Hv.
  assert (Hblank : all is_space line = true ->
                   tasks (add_task st line) = tasks st).
  { intros H. apply strip_empty in H. unfold add_task. now rewrite H. }
  assert (Hadd : all is_space line = false ->
                 tasks (add_task st line)
                 = tasks st ++ [parse_task (strip line)] /\
                 valid_task (parse_task (strip line)) /\
                 strip line <> ""%string).
  { intros H. pose proof (proj1 (blank_or_not line) H) as Hne.
    split; [|split; [|exact Hne]].
    - unfold add_task. destruct (String.eqb (strip line) "") eqn:E;
        [apply String.eqb_eq in E; contradiction | reflexivity].
    - apply parse_task_valid_iff. apply blank_or_not.
      now rewrite strip_idempotent. }
  assert (Hp : parse_task (strip line)
               = mkTask (VStr (strip line))
                   (VStr (extract_deadline (strip line)))
                   (VStr (extract_priority (strip line)))).
  { unfold parse_task. now rewrite strip_idempotent. }
  split; [|split; [exact Hblank|]].
  - destruct (all is_space line) eqn:E.
    + now rewrite Hblank.
    + destruct (Hadd eq_refl) as [Et [Hvt _]]. rewrite Et.
      apply Forall_app. split; [assumption|].
      constructor; [exact Hvt | constructor].
  - intros H t. destruct (Hadd H) as [Et [Hvt Hne]]. unfold t.
    rewrite <- Hp. split; [exact Et|]. split; [exact Hvt|].
    split; [exact Hne | apply strip_trimmed].
Qed.

(** X6 on a list of one record, a line typed with spaces around it and a
    line of spaces. *)
Lemma add_task_keeps_valid_witness :
  let a := mkTask (VStr "pay rent") (VStr "tomorrow") (VStr "high") in
  let st := mkState [a] NoFile [] in
  Forall valid_task (tasks st) /\
  tasks (add_task st "   ") = [a] /\
  tasks (add_task st "  call mum by Sunday ")
  = [a; mkTask (VStr "call mum by Sunday") (VStr "by sunday") (VStr "medium")]
  /\
  Forall valid_task (tasks (add_task st "  call mum by Sunday ")).
Proof.
  intros a st.
  assert (H : Forall valid_task (tasks st)).
  { repeat constructor; unfold is_text, is_level; simpl;
      try (eexists; split; [reflexivity | discriminate]); tauto. }
  split; [exact H|].
  split;
    [exact (proj1 (proj2 (add_task_keeps_valid st "   " H)) eq_refl)|].
  split;
    [exact (proj1 (proj2 (proj2 (add_task_keeps_valid st
                                   "  call mum by Sunday " H)) eq_refl))|].
  exact (proj1 (add_task_keeps_valid st "  call mum by Sunday " H)).
Defined.

(* ================================================================= *)
(** ** More on loading *)

Section LoadingMore.

(** The list built so far has no part in what the loop does next. *)
Lemma load_loop_acc (items : list value) :
  forall acc,
    load_loop items acc
    = (ts <- load_loop items [] ;; Returns (acc ++ ts)).
Proof.
  induction items as [|item items IH]; intros acc.
  - simpl. now rewrite app_nil_r.
  - assert (Hstep : forall t,
               load_loop items (acc ++ [t])
               = (ts <- load_loop items ([] ++ [t]) ;; Returns (acc ++ ts))).
    { intros t. rewrite (IH (acc ++ [t])), (IH ([] ++ [t])).
      destruct (load_loop items []) as [ts|e]; simpl; [|reflexivity].
      now rewrite <- app_assoc. }
    cbn [load_loop].
    destruct (py_in "raw_text" item) as [[|]|e]; cbn [bind];
      [| |reflexivity].
    + destruct (Task_kwargs item) as [t|e]; cbn [bind]; [|reflexivity].
      apply Hstep.
    + destruct (py_in "description" item) as [[|]|e]; cbn [bind];
        [|apply IH|reflexivity].
      destruct (getitem item "description") as [r|e]; cbn [bind];
        [|reflexivity].
      destruct (get item "deadline" (VStr "unspecified")) as [dl|e];
        cbn [bind]; [|reflexivity].
      destruct (get item "priority" (VStr "medium")) as [p|e];
        cbn [bind]; [|reflexivity].
      apply Hstep.
Qed.

Lemma load_loop_concat (l1 l2 : list value) :
  load_loop (l1 ++ l2) []
  = (a <- load_loop l1 [] ;; b <- load_loop l2 [] ;; Returns (a ++ b)).
Proof.
  rewrite load_loop_app.
  destruct (load_loop l1 []) as [a|e]; cbn [bind]; [|reflexivity].
  apply load_loop_acc.
Qed.

Lemma exact_fields_kwargs (entries : list (string * value)) :
  exact_fields entries -> exists t, Task_kwargs (VDict entries) = Returns t.
Proof.
  intros H. cbn [Task_kwargs].
  assert (Hall : forallb
                   (fun '(k, _) => existsb (String.eqb k) Task_fields)
                   entries = true).
  { apply forallb_forall. intros [k v] Hin.
    apply existsb_exists. exists k. split; [|apply String.eqb_refl].
    apply H. unfold has_key. apply existsb_exists. exists (k, v).
    split; [assumption | apply String.eqb_refl]. }
  rewrite Hall.
  assert (Hk : forall k, In k Task_fields -> exists v, lookup k entries = Some v)
    by (intros k Hin; apply has_key_lookup; now apply H).
  destruct (Hk "raw_text"%string) as [r ->]; [simpl; tauto|].
  destruct (Hk "deadline"%string) as [dl ->]; [simpl; tauto|].
  destruct (Hk "priority"%string) as [p ->]; [simpl; tauto|].
  eauto.
Qed.

Lemma load_loop_length (items : list value) :
  forall acc ts,
    load_loop items acc = Returns ts ->
    List.length ts <= List.length acc + List.length items.
Proof.
  induction items as [|item items IH]; intros acc ts H.
  - simpl in H. injection H as <-. lia.
  - apply load_loop_turn in H.
    destruct H as [[d [t [_ [_ [_ H]]]]] | [[d [desc [_ [_ [_ H]]]]] | [_ [_ H]]]];
      apply IH in H; rewrite ?length_app in H; simpl in *; lia.
Qed.

End LoadingMore.

Lemma load_tasks_app (l1 l2 : list value) :
  load_tasks (Json (VList (l1 ++ l2)))
  = match load_loop l1 [], load_loop l2 [] with
    | Returns a, Returns b => Returns (a ++ b)
    | _, _ => Returns []
    end.
Proof.
  rewrite load_tasks_Json. cbn [iterate]. rewrite load_loop_concat.
  destruct (load_loop l1 []) as [a|e1], (load_loop l2 []) as [b|e2];
    reflexivity.
Qed.

(** X7: loading a file that holds two runs of items one after the other:
    when the loop returns on each run alone, the file loads as the records
    of the first run followed by those of the second; when it raises on
    either run, the file loads as the empty list. *)
Theorem load_tasks_concat (l1 l2 : list value) :
  load_tasks (Json (VList (l1 ++ l2)))
  = match load_loop l1 [], load_loop l2 [] with
    | Returns a, Returns b => Returns (a ++ b)
    | _, _ => Returns []
    end.
Proof. exact (load_tasks_app l1 l2). Qed.

(** X8: the items on which the loop raises: None, a bool or a number; a str
    in which "raw_text" or "description" occurs; a list with one of these
    two strs among its elements; a dict with the key "raw_text" whose keys
    are not exactly the three fields.  One such item anywhere in the list
    makes the file load as the empty list; a list without such an item loads
    with at most one record per item. *)
Theorem load_tasks_all_or_nothing (items : list value) :
  let raising (item : value) : Prop :=
    match item with
    | VNone | VBool _ | VInt _ | VFloat _ => True
    | VStr s =>
        Substring "raw_text" s \/ Substring "description" s
    | VList l => In (VStr "raw_text") l \/ In (VStr "description") l
    | VDict d => has_key "raw_text" d = true /\ ~ exact_fields d
    end in
  ((exists item, In item items /\ raising item) ->
   load_tasks (Json (VList items)) = Returns []) /\
  ((forall item, In item items -> ~ raising item) ->
   exists ts,
     load_loop items [] = Returns ts /\
     load_tasks (Json (VList items)) = Returns ts /\
     List.length ts <= List.length items).
Proof.
  intros raising.
  assert (Hone : forall item rest acc,
             raising item -> load_loop (item :: rest) acc = Raises TypeError).
  { intros item rest acc R.
    destruct item as [ | b | n | f | s | l | d]; try reflexivity.
    - cbn [load_loop py_in bind]. destruct R as [R|R].
      + apply contains_Substring in R. now rewrite R.
      + apply contains_Substring in R. rewrite R.
        now destruct (contains "raw_text" s).
    - cbn [load_loop py_in bind].
      assert (Hin : forall k, In (VStr k) l ->
                existsb (fun v => match v with
                                  | VStr s => String.eqb s k
                                  | _ => false
                                  end) l = true).
      { intros k Hk. apply existsb_exists. exists (VStr k).
        split; [assumption | apply String.eqb_refl]. }
      destruct R as [R|R]; apply Hin in R; rewrite R; [reflexivity|].
      match goal with |- context [existsb ?f l] => now destruct (existsb f l) end.
    - destruct R as [Hraw Hne].
      rewrite (load_loop_current d rest acc Hraw).
      destruct (Task_kwargs (VDict d)) as [t|e] eqn:E.
      + apply Task_kwargs_fields in E. tauto.
      + cbn [bind]. f_equal. cbn [Task_kwargs] in E.
        destruct (forallb _ d); [|now injection E as <-].
        destruct (lookup "raw_text" d), (lookup "deadline" d),
          (lookup "priority" d); try discriminate; now injection E as <-. }
  assert (Hsafe : forall item rest,
             ~ raising item ->
             exists new, forall acc',
               load_loop (item :: rest) acc' = load_loop rest (acc' ++ new)).
  { intros item rest R.
    destruct item as [ | b | n | f | s | l | d]; try (now destruct R).
    - exists []. intros acc'. cbn [load_loop py_in bind].
      destruct (contains "raw_text" s) eqn:E1.
      { exfalso. apply R. left. now apply contains_Substring. }
      destruct (contains "description" s) eqn:E2.
      { exfalso. apply R. right. now apply contains_Substring. }
      now rewrite app_nil_r.
    - exists []. intros acc'. cbn [load_loop py_in bind].
      assert (Hin : forall k,
                existsb (fun v => match v with
                                  | VStr s => String.eqb s k
                                  | _ => false
                                  end) l = true -> In (VStr k) l).
      { intros k Hk. apply existsb_exists in Hk. destruct Hk as [v [Hv Hk]].
        destruct v; try discriminate. apply String.eqb_eq in Hk. now subst. }
      match goal with
      | |- context [existsb ?f l] => destruct (existsb f l) eqn:E1
      end.
      { exfalso. apply R. left. now apply Hin. }
      match goal with
      | |- context [existsb ?f l] => destruct (existsb f l) eqn:E2
      end.
      { exfalso. apply R. right. now apply Hin. }
      now rewrite app_nil_r.
    - destruct (has_key "raw_text" d) eqn:Hraw.
      + assert (Hex : exact_fields d).
        { destruct (Task_kwargs (VDict d)) as [t|e] eqn:E.
          - now apply Task_kwargs_fields in E.
          - exfalso. apply R. split; [exact Hraw|]. intros Hex.
            apply exact_fields_kwargs in Hex. destruct Hex as [t Ht].
            congruence. }
        destruct (exact_fields_kwargs d Hex) as [t Ht].
        exists [t]. intros acc'.
        rewrite (load_loop_current d rest acc' Hraw), Ht. reflexivity.
      + destruct (lookup "description" d) as [desc|] eqn:Hdesc.
        * eexists [_]. intros acc'.
          exact (load_loop_legacy d desc rest acc' Hraw Hdesc).
        * exists []. intros acc'. apply has_key_false_lookup in Hdesc.
          rewrite (load_loop_unknown d rest acc' Hraw Hdesc).
          now rewrite app_nil_r. }
  split.
  - intros [item [Hin R]]. apply in_split in Hin.
    destruct Hin as [l1 [l2 ->]]. rewrite load_tasks_app.
    rewrite (Hone item l2 [] R). now destruct (load_loop l1 []).
  - intros Hall.
    assert (Hret : forall acc, exists ts, load_loop items acc = Returns ts).
    { induction items as [|item items IH]; intros acc; [now exists acc|].
      destruct (Hsafe item items) as [new Hnew];
        [apply Hall; now left|].
      rewrite Hnew. apply IH. intros i Hi. apply Hall. now right. }
    destruct (Hret []) as [ts Hts]. exists ts.
    split; [assumption|]. split.
    + rewrite load_tasks_Json. cbn [iterate]. now rewrite Hts.
    + exact (load_loop_length items [] ts Hts).
Qed.

(** X8 on a file whose second item is a number, and on the same file
    without it. *)
Lemma load_tasks_all_or_nothing_witness :
  let record := VDict [("description"%string, VStr "buy milk")] in
  load_tasks (Json (VList [record; VInt 7; record])) = Returns [] /\
  exists ts,
    load_tasks (Json (VList [record; record])) = Returns ts /\
    List.length ts <= 2.
Proof.
  intros record. split.
  - apply (proj1 (load_tasks_all_or_nothing [record; VInt 7; record])).
    exists (VInt 7). simpl. tauto.
  - destruct (proj2 (load_tasks_all_or_nothing [record; record])) as [ts H].
    + intros item [<-|[<-|[]]]; simpl; intros [H _]; discriminate.
    + exists ts. tauto.
Defined.

(** X9: whatever list is saved, the document written is a list of dicts
    with exactly the three fields as keys, so a list loaded from records of
    the old schema is written back in the current one, and loading the
    written file gives the saved list again, valid or not. *)
Theorem save_tasks_current_schema (ts : list Task) (d : disk) :
  (exists items,
      save_tasks ts d = Json (VList items) /\
      List.length items = List.length ts /\
      forall item, In item items ->
        exists entries, item = VDict entries /\ exact_fields entries) /\
  load_tasks (save_tasks ts d) = Returns ts.
Proof.
  assert (Hload : load_tasks (save_tasks ts d) = Returns ts).
  { unfold save_tasks. rewrite load_tasks_Json. cbn [iterate].
    now rewrite load_loop_saved. }
  split; [|exact Hload].
  - exists (map Task_dict ts). split; [reflexivity|].
    split; [apply length_map|].
    intros item Hin. apply in_map_iff in Hin. destruct Hin as [t [<- _]].
    eexists. split; [reflexivity|].
    intros k. unfold has_key, Task_dict, Task_fields. cbn [existsb In].
    rewrite !orb_true_iff, !String.eqb_eq. intuition discriminate.
Qed.

(* ================================================================= *)
(** ** More on the task operations *)

Section Operations.

Lemma print_rows_raises (ts : list Task) :
  print_rows ts = Returns tt \/ print_rows ts = Raises AttributeError.
Proof.
  induction ts as [|t ts IH]; simpl; [now left|].
  unfold upper_priority. destruct (priority t); simpl; auto.
Qed.

Lemma print_rows_returns (ts : list Task) :
  print_rows ts = Returns tt <-> Forall str_priority ts.
Proof.
  split; [|apply print_rows_strs].
  induction ts as [|t ts IH]; simpl; [constructor|].
  unfold upper_priority, str_priority.
  destruct (priority t) as [ | b | n | f | s | l | d] eqn:E; simpl;
    try discriminate.
  intros H. constructor; [rewrite E; eauto | auto].
Qed.

(** [view_tasks] on every list. *)
Lemma view_tasks_cases (st : state) :
  (Forall str_priority (tasks st) ->
   view_tasks st
   = Returns (print match tasks st with
                    | [] => NoTasks
                    | _ => Listing (tasks st)
                    end st)) /\
  (~ Forall str_priority (tasks st) ->
   view_tasks st = Raises AttributeError).
Proof.
  unfold view_tasks. split.
  - intros H. destruct (tasks st) as [|t ts] eqn:E; [reflexivity|].
    now rewrite (print_rows_strs _ H).
  - intros H. destruct (tasks st) as [|t ts] eqn:E.
    + exfalso. apply H. constructor.
    + destruct (print_rows_raises (t :: ts)) as [R|R]; [|now rewrite R].
      apply print_rows_returns in R. contradiction.
Qed.

(** [delete_task] on a list that is not empty and can be listed: the
    listing is printed and the number is read. *)
Lemma delete_task_listed (st : state) (entry : result Z) :
  tasks st <> [] ->
  Forall str_priority (tasks st) ->
  let st1 := print (Listing (tasks st)) st in
  delete_task st entry
  = catch
      (idx <- entry ;;
       if ((1 <=? idx) && (idx <=? Z.of_nat (List.length (tasks st))))%Z
       then
         '(removed, remaining) <- list_pop (tasks st) (idx - 1) ;;
         Returns
           (print (Deleted (raw_text removed))
              (mkState remaining (save_tasks remaining (file st))
                 (console st1)))
       else Returns (print InvalidNumber st1))
      is_ValueError
      (Returns (print EnterANumber st1)).
Proof.
  intros Hne Hs st1. unfold delete_task.
  destruct (tasks st) as [|t ts] eqn:Et; [congruence|].
  cbv beta iota. rewrite <- Et in Hs, Hne.
  destruct (view_tasks_cases st) as [Hv _]. rewrite (Hv Hs), Et.
  subst st1. cbn [bind print tasks file console]. rewrite ?Et. reflexivity.
Qed.

Lemma list_pop_last (l : list Task) (t : Task) :
  list_pop (l ++ [t]) (Z.of_nat (List.length l) + 1 - 1) = Returns (t, l).
Proof.
  unfold list_pop. rewrite length_app. cbn [List.length].
  replace (Z.of_nat (List.length l) + 1 - 1)%Z
    with (Z.of_nat (List.length l)) by lia.
  assert (E1 : (Z.of_nat (List.length l) <? 0)%Z = false)
    by (apply Z.ltb_ge; lia).
  rewrite E1.
  assert (E2 : ((0 <=? Z.of_nat (List.length l))
                && (Z.of_nat (List.length l)
                    <? Z.of_nat (List.length l + 1)))%Z = true).
  { apply andb_true_iff. split; [apply Z.leb_le | apply Z.ltb_lt]; lia. }
  rewrite E2, Nat2Z.id.
  rewrite nth_error_app2 by lia. rewrite Nat.sub_diag. cbn [nth_error].
  rewrite firstn_app, Nat.sub_diag, firstn_all. cbn [firstn].
  rewrite skipn_app, (skipn_all2 l) by lia.
  replace (S (List.length l) - List.length l) with 1 by lia.
  cbn [skipn]. now rewrite !app_nil_r.
Qed.

Lemma parse_task_str (text : string) : str_priority (parse_task text).
Proof. unfold str_priority, parse_task. simpl. eauto. Qed.

End Operations.

(** X10: [view_tasks] returns, with the list and the file untouched, on
    every list whose priorities are all strs ("No tasks." on the empty
    list, the listing otherwise); on a list with a priority that is no str
    it raises AttributeError. *)
Theorem view_tasks_str_priorities (st : state) :
  (Forall str_priority (tasks st) ->
   view_tasks st
   = Returns (print match tasks st with
                    | [] => NoTasks
                    | _ => Listing (tasks st)
                    end st)) /\
  (~ Forall str_priority (tasks st) ->
   view_tasks st = Raises AttributeError).
Proof. exact (view_tasks_cases st). Qed.

(** X10 on the list loaded from a file whose record stores the number 1 as
    its priority, and on a list of one parsed record. *)
Lemma view_tasks_str_priorities_witness :
  let d := Json (VList [VDict [("raw_text"%string, VStr "pay rent");
                               ("deadline"%string, VStr "tomorrow");
                               ("priority"%string, VInt 1)]]) in
  let loaded := [mkTask (VStr "pay rent") (VStr "tomorrow") (VInt 1)] in
  load_tasks d = Returns loaded /\
  view_tasks (mkState loaded d []) = Raises AttributeError /\
  view_tasks (mkState [parse_task "pay rent"] d [])
  = Returns (mkState [parse_task "pay rent"] d
               [Listing [parse_task "pay rent"]]).
Proof.
  intros d loaded. split; [reflexivity|]. split.
  - apply (proj2 (view_tasks_str_priorities (mkState loaded d []))).
    intros H. inversion H as [|t ts [s Hs] _]. discriminate.
  - apply (proj1 (view_tasks_str_priorities
                    (mkState [parse_task "pay rent"] d []))).
    repeat constructor. apply parse_task_str.
Defined.

(** X11: on a list with a priority that is no str, [delete_task] raises
    AttributeError while printing the listing, whatever number is about to
    be typed: nothing is removed and nothing is written. *)
Theorem delete_task_unlistable (st : state) (entry : result Z) :
  ~ Forall str_priority (tasks st) ->
  delete_task st entry = Raises AttributeError.
Proof.
  intros H. unfold delete_task.
  destruct (tasks st) as [|t ts] eqn:E.
  - exfalso. apply H. constructor.
  - rewrite <- E in H. destruct (view_tasks_cases st) as [_ Hv].
    now rewrite (Hv H).
Qed.

(** X11 on a list of two records, the second with the priority None. *)
Lemma delete_task_unlistable_witness :
  let st := mkState [parse_task "pay rent";
                     mkTask (VStr "buy milk") (VStr "unspecified") VNone]
                    NoFile [] in
  ~ Forall str_priority (tasks st) /\
  delete_task st (Returns 1%Z) = Raises AttributeError.
Proof.
  intros st.
  assert (H : ~ Forall str_priority (tasks st)).
  { intros H. inversion H as [|t ts _ H']. inversion H' as [|t' ts' [s Hs] _].
    discriminate. }
  split; [exact H | exact (delete_task_unlistable st (Returns 1%Z) H)].
Defined.

(** X12: what [delete_task] does with what is typed, on a list whose
    priorities are all strs.  On the empty list nothing is read.
    Otherwise, when reading the number raises ValueError or one of its
    subclasses, the list and the file stay as they were and "Enter a
    number." is printed after the listing; any other exception raised while
    reading, such as EOFError, propagates. *)
Theorem delete_task_not_a_number (st : state) :
  Forall str_priority (tasks st) ->
  (tasks st = [] ->
   forall entry, delete_task st entry = Returns (print NoTasksToDelete st)) /\
  (tasks st <> [] ->
   (forall e,
       is_ValueError e = true ->
       delete_task st (Raises e)
       = Returns (mkState (tasks st) (file st)
                    (console st ++ [Listing (tasks st); EnterANumber]))) /\
   (forall e,
       is_ValueError e = false -> delete_task st (Raises e) = Raises e)).
Proof.
  intros Hs. split.
  - intros E entry. unfold delete_task. now rewrite E.
  - intros Hne. split; intros e He;
      rewrite (delete_task_listed st _ Hne Hs); cbn [bind catch]; rewrite He.
    + unfold print. cbn [tasks file console]. now rewrite <- app_assoc.
    + reflexivity.
Qed.

(** X12 on a list of one record: a ValueError, a UnicodeDecodeError and an
    EOFError raised while the number is read. *)
Lemma delete_task_not_a_number_witness :
  let st := mkState [parse_task "pay rent"] NoFile [] in
  let unchanged := mkState [parse_task "pay rent"] NoFile
                     [Listing [parse_task "pay rent"]; EnterANumber] in
  Forall str_priority (tasks st) /\
  delete_task st (Raises ValueError) = Returns unchanged /\
  delete_task st (Raises UnicodeDecodeError) = Returns unchanged /\
  delete_task st (Raises EOFError) = Raises EOFError.
Proof.
  intros st unchanged.
  assert (H : Forall str_priority (tasks st))
    by (repeat constructor; apply parse_task_str).
  assert (Hne : tasks st <> []) by discriminate.
  destruct (proj2 (delete_task_not_a_number st H) Hne) as [Hv Ho].
  split; [exact H|].
  split; [exact (Hv ValueError eq_refl)|].
  split; [exact (Hv UnicodeDecodeError eq_refl) | exact (Ho EOFError eq_refl)].
Defined.

(** X13: adding a task from a line that is not blank and then deleting the
    last number.  On a list whose priorities are all strs this undoes the
    addition: the list is what it was before, and the file holds the dicts
    of that list and loads as it.  On a list with a priority that is no
    str the delete raises AttributeError and the addition stays, in the
    list and in the file. *)
Theorem add_then_delete_last (st : state) (line : string) :
  strip line <> ""%string ->
  let added := add_task st line in
  let last := (Z.of_nat (List.length (tasks st)) + 1)%Z in
  tasks added = tasks st ++ [parse_task (strip line)] /\
  file added = Json (VList (map Task_dict (tasks added))) /\
  (Forall str_priority (tasks st) ->
   exists st',
     delete_task added (Returns last) = Returns st' /\
     tasks st' = tasks st /\
     file st' = Json (VList (map Task_dict (tasks st))) /\
     load_tasks (file st') = Returns (tasks st)) /\
  (~ Forall str_priority (tasks st) ->
   delete_task added (Returns last) = Raises AttributeError).
Proof.
  intros Hne added last.
  set (t := parse_task (strip line)).
  assert (Ea : added
               = print TaskAdded
                   (mkState (tasks st ++ [t])
                      (save_tasks (tasks st ++ [t]) (file st)) (console st))).
  { unfold added, add_task. destruct (String.eqb (strip line) "") eqn:E;
      [apply String.eqb_eq in E; contradiction | reflexivity]. }
  assert (Hta : tasks added = tasks st ++ [t]) by now rewrite Ea.
  assert (Hna : tasks added <> []) by (rewrite Hta; now destruct (tasks st)).
  split; [exact Hta|]. split; [now rewrite Ea|]. split.
  - intros Hs.
    assert (Hsa : Forall str_priority (tasks added)).
    { rewrite Hta. apply Forall_app. split; [assumption|].
      repeat constructor. apply parse_task_str. }
    rewrite (delete_task_listed added _ Hna Hsa). cbn [bind].
    rewrite Hta, length_app. cbn [List.length]. unfold last.
    assert (E : ((1 <=? Z.of_nat (List.length (tasks st)) + 1)
                 && (Z.of_nat (List.length (tasks st)) + 1
                     <=? Z.of_nat (List.length (tasks st) + 1)))%Z = true).
    { apply andb_true_iff. split; apply Z.leb_le; lia. }
    rewrite E, list_pop_last. cbn [bind catch].
    eexists. split; [reflexivity|]. cbn [print tasks file].
    split; [reflexivity|]. split; [reflexivity|].
    unfold save_tasks. rewrite load_tasks_Json. cbn [iterate].
    now rewrite load_loop_saved.
  - intros Hn.
    assert (Hn' : ~ Forall str_priority (tasks added)).
    { rewrite Hta. intros H. apply Forall_app in H. tauto. }
    pose proof (proj2 (view_tasks_cases added) Hn') as Hv.
    unfold delete_task.
    destruct (tasks added) as [|x xs]; [congruence|]. now rewrite Hv.
Qed.

(** X13 on a list of one parsed record, and on the list loaded from a file
    whose record stores null as its priority. *)
Lemma add_then_delete_last_witness :
  let st := mkState [parse_task "pay rent"] NoFile [] in
  let loaded := mkState [mkTask (VStr "pay rent") (VStr "tomorrow") VNone]
                        NoFile [] in
  strip " buy milk " <> ""%string /\
  (exists st',
      delete_task (add_task st " buy milk ") (Returns 2%Z) = Returns st' /\
      tasks st' = [parse_task "pay rent"] /\
      file st' = Json (VList [Task_dict (parse_task "pay rent")])) /\
  delete_task (add_task loaded " buy milk ") (Returns 2%Z)
  = Raises AttributeError.
Proof.
  intros st loaded.
  assert (Hne : strip " buy milk " <> ""%string) by discriminate.
  split; [exact Hne|]. split.
  - destruct (add_then_delete_last st " buy milk " Hne) as [_ [_ [Hu _]]].
    destruct Hu as [st' [E [Et [Ef _]]]];
      [repeat constructor; apply parse_task_str|].
    exists st'. split; [exact E|]. split; [exact Et | exact Ef].
  - destruct (add_then_delete_last loaded " buy milk " Hne)
      as [_ [_ [_ Hr]]].
    apply Hr. intros H. inversion H as [|x xs [s Hs] _]. discriminate.
Defined.

(* ================================================================= *)
(** ** Focus mode *)

Section Focus.

Lemma is_high_iff (t : Task) : is_high t = true <-> priority t = VStr "high".
Proof.
  unfold is_high. destruct (priority t); try (split; discriminate).
  rewrite String.eqb_eq. split; [now intros -> | now intros [= ->]].
Qed.

Lemma focus_mode_rows (l : list Task) :
  filter is_high l <> [] -> focus_mode l = [FocusListing (filter is_high l)].
Proof.
  unfold focus_mode. destruct (filter is_high l); [congruence | reflexivity].
Qed.

End Focus.

(** X14: [focus_mode] prints "No high-priority tasks." exactly when no
    record has the str "high" as its priority.  After a record parsed from
    a text is appended, the listing of the high records ends with the new
    record when the text has a high-priority keyword and no low-priority
    phrase, and focus mode prints what it printed before in every other
    case. *)
Theorem focus_mode_after_parse (l : list Task) (text : string) :
  let low := exists p, In p LOW_PRIORITY_PHRASES /\ Substring p (lower text) in
  let high :=
    exists w, In w PRIORITY_KEYWORDS_high /\ Substring w (lower text) in
  (focus_mode l = [NoHighPriority] <->
   forall t, In t l -> priority t <> VStr "high") /\
  (~ low /\ high ->
   focus_mode (l ++ [parse_task text])
   = [FocusListing (filter is_high l ++ [parse_task text])]) /\
  (~ (~ low /\ high) ->
   focus_mode (l ++ [parse_task text]) = focus_mode l).
Proof.
  intros low high.
  assert (Hp : is_high (parse_task text) = true <-> ~ low /\ high).
  { rewrite is_high_iff. unfold parse_task. cbn [priority].
    destruct (priority_decided text) as [_ [Hh _]]. fold low high in Hh.
    rewrite <- Hh. split; [now intros [= ->] | now intros ->]. }
  split; [|split].
  - unfold focus_mode. split.
    + intros H t Hin Ht. apply is_high_iff in Ht.
      destruct (filter is_high l) as [|x xs] eqn:E; [|discriminate].
      assert (Hf : In t (filter is_high l)) by (apply filter_In; auto).
      rewrite E in Hf. destruct Hf.
    + intros H. destruct (filter is_high l) as [|x xs] eqn:E; [reflexivity|].
      exfalso. assert (Hf : In x (filter is_high l)) by (rewrite E; now left).
      apply filter_In in Hf. destruct Hf as [Hin Hx].
      apply is_high_iff in Hx. exact (H x Hin Hx).
  - intros H. apply Hp in H.
    assert (E : filter is_high (l ++ [parse_task text])
                = filter is_high l ++ [parse_task text])
      by (rewrite filter_app; cbn [filter]; now rewrite H).
    rewrite <- E. apply focus_mode_rows. rewrite E.
    now destruct (filter is_high l).
  - intros H. unfold focus_mode. rewrite filter_app. cbn [filter].
    destruct (is_high (parse_task text)) eqn:E.
    + exfalso. apply H. now apply Hp.
    + now rewrite app_nil_r.
Qed.

(** X14 on the empty list and the text "Call the bank ASAP". *)
Lemma focus_mode_after_parse_witness :
  let text := "Call the bank ASAP"%string in
  (~ (exists p, In p LOW_PRIORITY_PHRASES /\ Substring p (lower text)) /\
   exists w, In w PRIORITY_KEYWORDS_high /\ Substring w (lower text)) /\
  focus_mode ([] ++ [parse_task text]) = [FocusListing [parse_task text]].
Proof.
  intros text.
  assert (H : ~ (exists p, In p LOW_PRIORITY_PHRASES
                           /\ Substring p (lower text)) /\
              exists w, In w PRIORITY_KEYWORDS_high
                        /\ Substring w (lower text)).
  { split.
    - intros [p [Hin Hs]]. apply contains_Substring in Hs. simpl in Hin.
      destruct Hin as [<-|[<-|[<-|[<-|[]]]]]; vm_compute in Hs; discriminate.
    - exists "asap"%string. split; [simpl; tauto|].
      now exists "call the bank "%string, ""%string. }
  split; [exact H|].
  exact (proj1 (proj2 (focus_mode_after_parse [] text)) H).
Defined.

(* ================================================================= *)
(** ** The main loop *)

Section MainLoop.

Variable py_int : string -> result Z.

Lemma load_saved (ts : list Task) (d : disk) :
  load_tasks (save_tasks ts d) = Returns ts.
Proof.
  unfold save_tasks. rewrite load_tasks_Json. cbn [iterate].
  now rewrite load_loop_saved.
Qed.

Lemma after_in_step (s : session) (st' : state) :
  in_step s -> untouched_or_saved (as_state s) st' -> in_step (after s st').
Proof.
  unfold in_step, after. cbn [mem dsk as_state tasks file].
  intros H [[Et Ef] | Ef]; rewrite Ef; [now rewrite Et | apply load_saved].
Qed.

Lemma add_task_effect (st : state) (line : string) :
  untouched_or_saved st (add_task st line) /\
  (Forall str_priority (tasks st) ->
   Forall str_priority (tasks (add_task st line))).
Proof.
  unfold add_task. destruct (String.eqb (strip line) ""); cbn.
  - split; [left; auto | auto].
  - split; [now right|]. intros H. apply Forall_app. split; [assumption|].
    repeat constructor. apply parse_task_str.
Qed.

Lemma view_tasks_effect (st st' : state) :
  view_tasks st = Returns st' ->
  tasks st' = tasks st /\ file st' = file st /\
  Forall str_priority (tasks st).
Proof.
  intros H. destruct (print_rows_raises (tasks st)) as [R|R].
  - apply print_rows_returns in R.
    rewrite (proj1 (view_tasks_cases st) R) in H. injection H as <-. auto.
  - unfold view_tasks in H. destruct (tasks st) as [|t ts] eqn:E.
    + injection H as <-. cbn. rewrite E. auto.
    + rewrite R in H. discriminate.
Qed.

Lemma Forall_removed (P : Task -> Prop) (l : list Task) (n m : nat) :
  Forall P l -> Forall P (firstn n l ++ skipn m l).
Proof.
  intros H. apply Forall_app. split.
  - rewrite <- (firstn_skipn n l) in H. now apply Forall_app in H.
  - rewrite <- (firstn_skipn m l) in H. now apply Forall_app in H.
Qed.

Lemma list_pop_returns (l : list Task) (i : Z) (x : Task) (l' : list Task) :
  list_pop l i = Returns (x, l') ->
  forall P : Task -> Prop, Forall P l -> Forall P l'.
Proof.
  unfold list_pop. destruct (_ && _)%bool; [|discriminate].
  destruct (nth_error _ _); [|discriminate].
  intros H P HP. injection H as _ <-.
  exact (Forall_removed P l _ (S _) HP).
Qed.

(** What [delete_task] did when it returned, and why it raised when it
    raised. *)
Lemma delete_task_effect (st : state) (entry : result Z) :
  match delete_task st entry with
  | Returns st' =>
      untouched_or_saved st st' /\
      (forall P : Task -> Prop,
          Forall P (tasks st) -> Forall P (tasks st'))
  | Raises e =>
      (e = AttributeError /\ ~ Forall str_priority (tasks st)) \/
      (entry = Raises e /\ is_ValueError e = false)
  end.
Proof.
  assert (Hcase : tasks st = [] \/ tasks st <> [])
    by (destruct (tasks st); [left | right]; congruence).
  destruct Hcase as [Et|Hne].
  { unfold delete_task. destruct (tasks st) eqn:Et'; [|discriminate].
    split; [left; cbn; auto|]. intros P HP. cbn. now rewrite Et'. }
  destruct (print_rows_raises (tasks st)) as [R|R].
  - apply print_rows_returns in R.
    rewrite (delete_task_listed st entry Hne R).
    destruct entry as [idx|e]; cbn [bind catch].
    + destruct ((1 <=? idx) && (idx <=? Z.of_nat (List.length (tasks st))))%Z
        eqn:Hr.
      * apply andb_true_iff in Hr. destruct Hr as [H1 H2].
        apply Z.leb_le in H1, H2.
        destruct (list_pop_inside (tasks st) idx (conj H1 H2))
          as [removed [_ Hpop]].
        rewrite Hpop. cbn [bind catch print tasks file console].
        split; [now right|]. intros P HP. now apply Forall_removed.
      * cbn [catch print tasks file console]. split; [left; auto | auto].
    + destruct (is_ValueError e) eqn:He.
      * cbn [print tasks file console]. split; [left; auto | auto].
      * right. split; [reflexivity | exact He].
  - assert (Hn : ~ Forall str_priority (tasks st)).
    { intros H. apply print_rows_returns in H. congruence. }
    unfold delete_task. destruct (tasks st) as [|t ts] eqn:Et; [congruence|].
    rewrite <- Et in Hn.
    rewrite (proj2 (view_tasks_cases st) Hn). cbn [bind]. left.
    split; [reflexivity | now rewrite <- Et].
Qed.

Lemma load_tasks_raises (d : disk) (e : exn) :
  load_tasks d = Raises e ->
  e = UnicodeDecodeError \/ e = OSError \/ e = ValueError \/
  e = RecursionError.
Proof.
  destruct d as [ | | | doc | | | ]; try discriminate;
    try (intros H; injection H as <-; tauto).
  rewrite load_tasks_Json. destruct (iterate doc) as [items|e']; [|discriminate].
  destruct (load_loop items []); discriminate.
Qed.

(** The loop keeps the file in step with the list, keeps the priorities
    strs when they are, and crashes only for the two reasons below. *)
Lemma main_loop_ends (n : nat) :
  forall inputs s,
    List.length inputs <= n ->
    match main_loop py_int inputs s with
    | Exited s' | InputClosed s' =>
        (in_step s -> in_step s') /\
        (Forall str_priority (mem s) -> Forall str_priority (mem s'))
    | Crashed e =>
        (e = AttributeError /\ ~ Forall str_priority (mem s)) \/
        (exists a, In a inputs /\ py_int a = Raises e /\ is_ValueError e = false)
    end.
Proof.
  induction n as [|n IH]; intros inputs s Hlen.
  { destruct inputs; [|simpl in Hlen; lia]. cbn. auto. }
  destruct inputs as [|line rest]; [cbn; auto|].
  simpl in Hlen.
  assert (Hrest : forall s1,
             (in_step s -> in_step s1) ->
             (Forall str_priority (mem s) -> Forall str_priority (mem s1)) ->
             forall inputs',
               List.length inputs' <= n ->
               (forall a, In a inputs' -> In a (line :: rest)) ->
               match main_loop py_int inputs' s1 with
               | Exited s' | InputClosed s' =>
                   (in_step s -> in_step s') /\
                   (Forall str_priority (mem s) ->
                    Forall str_priority (mem s'))
               | Crashed e =>
                   (e = AttributeError /\ ~ Forall str_priority (mem s)) \/
                   (exists a, In a (line :: rest) /\
                              py_int a = Raises e /\ is_ValueError e = false)
               end).
  { intros s1 H1 H2 inputs' Hl Hin.
    specialize (IH inputs' s1 Hl).
    destruct (main_loop py_int inputs' s1) as [s'|e|s'].
    - destruct IH. split; auto.
    - destruct IH as [[-> Hn] | [a [Ha Hr]]]; [left | right].
      + split; [reflexivity|]. intros H. apply Hn. auto.
      + exists a. split; [now apply Hin | assumption].
    - destruct IH. split; auto. }
  cbn [main_loop].
  set (s0 := show Menu s).
  assert (Hs0 : as_state s0 = as_state s) by reflexivity.
  assert (Hafter : forall st',
             untouched_or_saved (as_state s) st' ->
             in_step s -> in_step (after s0 st')).
  { intros st' Hu Hi. apply after_in_step; [exact Hi | now rewrite Hs0]. }
  destruct (String.eqb (strip line) "1").
  { destruct rest as [|text rest']; [cbn; auto|].
    destruct (add_task_effect (as_state s0) text) as [Hu Hp].
    apply Hrest.
    - intros Hi. apply Hafter; [exact Hu | exact Hi].
    - exact Hp.
    - simpl in Hlen. lia.
    - intros a Ha. right. now right. }
  destruct (String.eqb (strip line) "2").
  { destruct (view_tasks (as_state s0)) as [st'|e] eqn:Ev.
    - apply view_tasks_effect in Ev. destruct Ev as [Et [Ef _]].
      apply Hrest.
      + intros Hi. apply Hafter; [left; auto | exact Hi].
      + cbn. now rewrite Et.
      + lia.
      + intros a Ha. now right.
    - left. destruct (print_rows_raises (mem s)) as [R|R].
      + apply print_rows_returns in R.
        rewrite (proj1 (view_tasks_cases (as_state s0)) R) in Ev.
        discriminate.
      + assert (Hn : ~ Forall str_priority (mem s)).
        { intros H. apply print_rows_returns in H. congruence. }
        rewrite (proj2 (view_tasks_cases (as_state s0)) Hn) in Ev.
        injection Ev as <-. auto. }
  destruct (String.eqb (strip line) "3").
  { assert (Hdel : forall entry inputs',
               List.length inputs' <= n ->
               (forall a, In a inputs' -> In a (line :: rest)) ->
               (forall e, entry = Raises e -> is_ValueError e = false ->
                          exists a, In a (line :: rest) /\
                                    py_int a = Raises e) ->
               match
                 match delete_task (as_state s0) entry with
                 | Returns st => main_loop py_int inputs' (after s0 st)
                 | Raises e => Crashed e
                 end
               with
               | Exited s' | InputClosed s' =>
                   (in_step s -> in_step s') /\
                   (Forall str_priority (mem s) ->
                    Forall str_priority (mem s'))
               | Crashed e =>
                   (e = AttributeError /\ ~ Forall str_priority (mem s)) \/
                   (exists a, In a (line :: rest) /\
                              py_int a = Raises e /\ is_ValueError e = false)
               end).
    { intros entry inputs' Hl Hin Hentry.
      pose proof (delete_task_effect (as_state s0) entry) as Hd.
      destruct (delete_task (as_state s0) entry) as [st'|e].
      - destruct Hd as [Hu Hp]. apply Hrest; trivial.
        + intros Hi. now apply Hafter.
        + exact (Hp str_priority).
      - destruct Hd as [[-> Hn] | [-> Hne]]; [left; auto | right].
        destruct (Hentry e eq_refl Hne) as [a [Ha Hr]]. exists a. auto. }
    destruct (reads_number (as_state s0)) eqn:Hread.
    - destruct rest as [|answer rest'].
      + destruct (view_tasks (as_state s0)) as [st'|e] eqn:Ev.
        * apply view_tasks_effect in Ev. destruct Ev as [Et [Ef _]].
          split.
          -- intros Hi. apply Hafter; [left; auto | exact Hi].
          -- cbn. now rewrite Et.
        * unfold reads_number in Hread. rewrite Ev in Hread.
          now destruct (tasks (as_state s0)).
      + apply Hdel.
        * simpl in Hlen. lia.
        * intros a Ha. right. now right.
        * intros e He Hne. exists answer. split; [right; now left | exact He].
    - apply Hdel.
      + lia.
      + intros a Ha. now right.
      + intros e He Hne. injection He as <-. discriminate Hne. }
  destruct (String.eqb (strip line) "4").
  { apply Hrest; auto; [lia | intros a Ha; now right]. }
  destruct (String.eqb (strip line) "5"); [cbn; auto|].
  apply Hrest; auto; [lia | intros a Ha; now right].
Qed.

(** [main], from the load on. *)
Lemma main_ends (d : disk) (inputs : list string) :
  match main py_int d inputs with
  | Exited s | InputClosed s =>
      in_step s /\
      (forall ts, load_tasks d = Returns ts -> Forall str_priority ts ->
                  Forall str_priority (mem s))
  | Crashed e =>
      load_tasks d = Raises e \/
      (e = AttributeError /\
       exists ts, load_tasks d = Returns ts /\ ~ Forall str_priority ts) \/
      (exists a, In a inputs /\ py_int a = Raises e /\
                 is_ValueError e = false)
  end.
Proof.
  unfold main. destruct (load_tasks d) as [ts|e] eqn:El; [|now left].
  pose proof (main_loop_ends (List.length inputs) inputs
                (mkSession ts d []) (le_n _)) as H.
  destruct (main_loop py_int inputs (mkSession ts d [])) as [s|e|s].
  - destruct H as [Hi Hp]. split; [apply Hi; exact El|].
    intros ts' E Hs. injection E as <-. now apply Hp.
  - destruct H as [[-> Hn] | H]; [|now right; right].
    right. left. split; [reflexivity|]. now exists ts.
  - destruct H as [Hi Hp]. split; [apply Hi; exact El|].
    intros ts' E Hs. injection E as <-. now apply Hp.
Qed.

End MainLoop.

Section StoredPriorities.

(** The priorities of the records loaded are strs when the priorities
    stored in the file are. *)
Lemma load_tasks_str_priorities (d : disk) (ts : list Task) :
  (forall items entries v,
      d = Json (VList items) -> In (VDict entries) items ->
      lookup "priority" entries = Some v -> is_str v) ->
  load_tasks d = Returns ts ->
  Forall str_priority ts.
Proof.
  intros Hst Hload.
  destruct d as [ | | | doc | | | ]; try discriminate;
    try (injection Hload as <-; constructor).
  destruct doc as [ | b | n | f | s | items | entries];
    try (rewrite load_tasks_not_a_list in Hload by discriminate;
         injection Hload as <-; constructor).
  rewrite load_tasks_Json in Hload. cbn [iterate] in Hload.
  destruct (load_loop items []) as [ts'|e] eqn:E;
    injection Hload as <-; [|constructor].
  apply (load_loop_priority is_str items) with (acc := []); trivial.
  - unfold is_str. eauto.
  - intros entries v Hin Hv. exact (Hst items entries v eq_refl Hin Hv).
Qed.

End StoredPriorities.

(** X15: however [main] ends without crashing, by the choice 5 or because
    the console was closed, the file is in step with the list: loading it
    gives exactly the list the program held.  This holds whatever was typed
    and whatever the file held at the start. *)
Theorem main_keeps_file_in_step (py_int : string -> result Z) (d : disk)
    (inputs : list string) (s : session) :
  main py_int d inputs = Exited s \/ main py_int d inputs = InputClosed s ->
  load_tasks (dsk s) = Returns (mem s).
Proof.
  intros H. pose proof (main_ends py_int d inputs) as E.
  destruct H as [H|H]; rewrite H in E; exact (proj1 E).
Qed.

(** X15 on a session that starts on a file that is no JSON, adds a task,
    fails to delete one and exits. *)
Lemma main_keeps_file_in_step_witness :
  let py_int := fun _ : string => @Raises Z ValueError in
  let inputs := ["1"; "pay rent tomorrow"; "3"; "first"; " 5 "]%string in
  exists s,
    main py_int NotJson inputs = Exited s /\
    mem s = [parse_task "pay rent tomorrow"] /\
    load_tasks (dsk s) = Returns (mem s).
Proof.
  intros py_int inputs. eexists. split; [reflexivity|].
  split; [reflexivity|].
  apply (main_keeps_file_in_step py_int NotJson inputs). left. reflexivity.
Defined.

(** X16: when [main] crashes with AttributeError, the file gave a record
    whose priority is no str, or [int] itself raised the exception on a
    line typed: the records a session adds, and the deletions it makes,
    never make the listing raise. *)
Theorem main_attribute_error (py_int : string -> result Z) (d : disk)
    (inputs : list string) :
  main py_int d inputs = Crashed AttributeError ->
  (exists ts, load_tasks d = Returns ts /\ ~ Forall str_priority ts) \/
  (exists a, In a inputs /\ py_int a = Raises AttributeError).
Proof.
  intros H. pose proof (main_ends py_int d inputs) as E. rewrite H in E.
  destruct E as [E | [[_ E] | [a [Ha [Hr _]]]]].
  - apply load_tasks_raises in E.
    destruct E as [E|[E|[E|E]]]; discriminate E.
  - now left.
  - right. now exists a.
Qed.

(** X16 on a file whose record stores the number 1 as its priority, when
    the list is viewed. *)
Lemma main_attribute_error_witness :
  let py_int := fun _ : string => @Raises Z ValueError in
  let d := Json (VList [VDict [("raw_text"%string, VStr "pay rent");
                               ("deadline"%string, VStr "tomorrow");
                               ("priority"%string, VInt 1)]]) in
  main py_int d ["2"%string] = Crashed AttributeError /\
  exists ts, load_tasks d = Returns ts /\ ~ Forall str_priority ts.
Proof.
  intros py_int d.
  assert (H : main py_int d ["2"%string] = Crashed AttributeError)
    by reflexivity.
  split; [exact H|].
  destruct (main_attribute_error py_int d ["2"%string] H)
    as [Hts | [a [_ Ha]]].
  - exact Hts.
  - discriminate Ha.
Defined.

(** X17: when every priority stored in the records of the file is a str
    and [int] raises no AttributeError on the lines typed, every list the
    session holds has str priorities: [main] does not crash with
    AttributeError, and the list it holds when it ends, by the choice 5 or
    because the console is closed, has str priorities. *)
Theorem main_keeps_str_priorities (py_int : string -> result Z) (d : disk)
    (inputs : list string) :
  (forall items entries v,
      d = Json (VList items) -> In (VDict entries) items ->
      lookup "priority" entries = Some v -> is_str v) ->
  (forall a, In a inputs -> py_int a <> Raises AttributeError) ->
  main py_int d inputs <> Crashed AttributeError /\
  (forall s,
      main py_int d inputs = Exited s \/ main py_int d inputs = InputClosed s ->
      Forall str_priority (mem s)).
Proof.
  intros Hst Hint. pose proof (main_ends py_int d inputs) as E.
  assert (Hl : forall ts, load_tasks d = Returns ts -> Forall str_priority ts)
    by (intros ts; apply load_tasks_str_priorities; exact Hst).
  split.
  - intros H. rewrite H in E.
    destruct E as [E | [[_ [ts [Hts Hn]]] | [a [Ha [Hr _]]]]].
    + apply load_tasks_raises in E.
      destruct E as [E|[E|[E|E]]]; discriminate E.
    + apply Hn. now apply Hl.
    + exact (Hint a Ha Hr).
  - intros s H.
    assert (Hm : in_step s /\
                 (forall ts, load_tasks d = Returns ts ->
                             Forall str_priority ts ->
                             Forall str_priority (mem s)))
      by (destruct H as [H|H]; rewrite H in E; exact E).
    destruct Hm as [_ Hm].
    unfold main in H. destruct (load_tasks d) as [ts|e] eqn:El.
    + apply (Hm ts eq_refl). now apply Hl.
    + destruct H; discriminate.
Qed.

(** X17 on a file of one record of the old schema and a session that adds
    a task, deletes the first and exits. *)
Lemma main_keeps_str_priorities_witness :
  let py_int := fun a : string =>
                  if String.eqb a "1" then Returns 1%Z
                  else Raises ValueError in
  let d := Json (VList [VDict [("description"%string, VStr "buy milk")]]) in
  let inputs := ["1"; "pay rent"; "3"; "1"; "5"]%string in
  exists s,
    main py_int d inputs = Exited s /\
    mem s = [parse_task "pay rent"] /\
    Forall str_priority (mem s).
Proof.
  intros py_int d inputs. eexists. split; [reflexivity|].
  split; [reflexivity|].
  refine (proj2 (main_keeps_str_priorities py_int d inputs _ _) _
            (or_introl eq_refl)).
  - intros items entries v E Hin Hv. injection E as <-.
    destruct Hin as [E|[]]. injection E as <-. discriminate.
  - intros a _. unfold py_int. destruct (String.eqb a "1"); discriminate.
Defined.

(** X18: a file that loads as the empty list, because there is none or
    because it is not JSON, has the wrong shape or holds a record that
    raises, is overwritten by the first task added: after the choice 1, a
    line that is not blank and the choice 5, the file holds the one record
    parsed from the stripped line and nothing of what it held. *)
Theorem first_add_overwrites (py_int : string -> result Z) (d : disk)
    (line : string) :
  load_tasks d = Returns [] ->
  strip line <> ""%string ->
  let t := parse_task (strip line) in
  main py_int d ["1"; line; "5"]%string
  = Exited (mkSession [t] (Json (VList [Task_dict t]))
              [Menu; Shown TaskAdded; Menu; Exiting]).
Proof.
  intros Hl Hne t. unfold main. rewrite Hl.
  cbn [main_loop]. change (strip "1") with "1"%string.
  change (strip "5") with "5"%string. cbn [String.eqb Ascii.eqb Bool.eqb].
  unfold add_task. cbn [as_state show mem dsk screen tasks file console].
  destruct (String.eqb (strip line) "") eqn:E;
    [apply String.eqb_eq in E; contradiction|].
  reflexivity.
Qed.

(** X18 on a file of one good record and one record that lacks a field:
    the good record is lost. *)
Lemma first_add_overwrites_witness :
  let py_int := fun _ : string => @Raises Z ValueError in
  let d := Json (VList [Task_dict (mkTask (VStr "pay rent") (VStr "tomorrow")
                                          (VStr "high"));
                        VDict [("raw_text"%string, VStr "buy milk")]]) in
  load_tasks d = Returns [] /\
  strip " call mum " <> ""%string /\
  exists s,
    main py_int d ["1"; " call mum "; "5"]%string = Exited s /\
    dsk s = Json (VList [Task_dict (parse_task "call mum")]).
Proof.
  intros py_int d.
  assert (Hl : load_tasks d = Returns []) by reflexivity.
  assert (Hne : strip " call mum " <> ""%string) by discriminate.
  split; [exact Hl|]. split; [exact Hne|].
  eexists. split; [exact (first_add_overwrites py_int d " call mum " Hl Hne)|].
  reflexivity.
Defined.

(* ================================================================= *)
(** ** Extraction and whitespace around the text *)

Section Whitespace.

Local Open Scope string_scope.

Lemma is_space_lower_char (c : ascii) : is_space (lower_char c) = is_space c.
Proof.
  destruct c as [[] [] [] [] [] [] [] []]; vm_compute; reflexivity.
Qed.

Lemma lower_lstrip (s : string) : lower (lstrip s) = lstrip (lower s).
Proof.
  induction s as [|c s IH]; simpl; [reflexivity|].
  rewrite is_space_lower_char. destruct (is_space c); [exact IH | reflexivity].
Qed.

Lemma lower_rstrip (s : string) : lower (rstrip s) = rstrip (lower s).
Proof.
  induction s as [|c s IH]; simpl; [reflexivity|].
  rewrite <- IH, is_space_lower_char.
  destruct (rstrip s) as [|d k]; simpl; [|reflexivity].
  now destruct (is_space c).
Qed.

Lemma lower_strip (s : string) : lower (strip s) = strip (lower s).
Proof. unfold strip. now rewrite lower_rstrip, lower_lstrip. Qed.

(** What [rstrip] drops is a blank tail. *)
Lemma rstrip_split (s : string) :
  exists w, s = rstrip s ++ w /\ all is_space w = true.
Proof.
  induction s as [|c s [w [E Hw]]]; simpl; [now exists ""|].
  destruct (rstrip s) as [|d k] eqn:Er.
  - destruct (is_space c) eqn:Hc.
    + exists (String c s). split; [reflexivity|].
      cbn [append] in E. subst s. cbn [all]. now rewrite Hc.
    + exists w. cbn [append] in *. now subst s.
  - exists w. split; [|assumption]. simpl. f_equal. exact E.
Qed.

Lemma str_length_append (a b : string) :
  String.length (a ++ b) = String.length a + String.length b.
Proof. induction a; simpl; congruence. Qed.

Lemma last_char_append (a b : string) (c d : ascii) :
  last_char (a ++ String c b) d = last_char b c.
Proof. revert d; induction a as [|x a IH]; intros d; simpl; auto. Qed.

Lemma solid_end_append (a b : string) :
  solid_end b = true -> solid_end (a ++ b) = true.
Proof.
  unfold solid_end. destruct b as [|c b]; [discriminate|].
  now rewrite last_char_append.
Qed.

Lemma blank_not_solid (s : string) :
  all is_space s = true -> solid_end s = false.
Proof.
  unfold solid_end.
  assert (H : forall d, is_space d = true -> all is_space s = true ->
                        is_space (last_char s d) = true).
  { induction s as [|c s IH]; intros d Hd Hs; simpl; [assumption|].
    simpl in Hs. apply andb_prop in Hs. destruct Hs. now apply IH. }
  intros Hs. now rewrite (H " "%char eq_refl Hs).
Qed.

(** Two ways of cutting the same str. *)
Lemma append_cut (a b c d : string) :
  a ++ b = c ++ d ->
  (exists x, c = a ++ x /\ b = x ++ d) \/
  (exists x, a = c ++ x /\ d = x ++ b).
Proof.
  revert c; induction a as [|y a IH]; intros c H; simpl in H.
  - left. now exists c.
  - destruct c as [|z c]; simpl in H.
    + right. now exists (String y a).
    + injection H as -> H. destruct (IH c H) as [[x [-> ->]] | [x [-> ->]]];
        [left | right]; now exists x.
Qed.

(** A match that ends with a solid character cannot reach into a blank
    tail of the input. *)
Lemma solid_fits (s w m rest : string) :
  s ++ w = m ++ rest ->
  all is_space w = true ->
  solid_end m = true ->
  String.length m <= String.length s.
Proof.
  intros E Hw Hm. apply append_cut in E.
  destruct E as [[x [-> ->]] | [x [-> _]]].
  - destruct x as [|c x].
    + rewrite append_empty_r. lia.
    + exfalso. rewrite all_append in Hw. apply andb_prop in Hw.
      destruct Hw as [Hx _]. apply blank_not_solid in Hx.
      unfold solid_end in Hm, Hx. rewrite last_char_append in Hm.
      simpl in Hx. congruence.
  - rewrite str_length_append. lia.
Qed.

Lemma starts_with_short (l s w : string) :
  starts_with l (s ++ w) = true ->
  String.length l <= String.length s ->
  starts_with l s = true.
Proof.
  revert s; induction l as [|a l IH]; intros s H Hl; [reflexivity|].
  destruct s as [|b s]; simpl in *; [lia|].
  apply andb_prop in H. destruct H as [-> H]. simpl. apply IH; [assumption | lia].
Qed.

Lemma starts_with_more (l s w : string) :
  starts_with l s = true -> starts_with l (s ++ w) = true.
Proof.
  intros H. apply starts_with_split in H. destruct H as [post ->].
  apply starts_with_split. exists (post ++ w). now rewrite append_assoc.
Qed.

Lemma take_short (k : nat) (s w : string) :
  k <= String.length s -> take k (s ++ w) = take k s.
Proof.
  revert s; induction k as [|k IH]; intros s H; [reflexivity|].
  destruct s as [|c s]; simpl in *; [lia|]. f_equal. apply IH. lia.
Qed.

Lemma drop_short (k : nat) (s w : string) :
  k <= String.length s -> drop k (s ++ w) = drop k s ++ w.
Proof.
  revert s; induction k as [|k IH]; intros s H; [reflexivity|].
  destruct s as [|c s]; simpl in *; [lia|]. apply IH. lia.
Qed.

Lemma take_length (k : nat) (s : string) :
  k <= String.length s -> String.length (take k s) = k.
Proof.
  revert s; induction k as [|k IH]; intros s H; [reflexivity|].
  destruct s as [|c s]; simpl in *; [lia|]. f_equal. apply IH. lia.
Qed.

Lemma digit_run_short (s w : string) :
  digit_run s = Nat.min (digit_run (s ++ w)) (String.length s).
Proof.
  induction s as [|c s IH]; simpl; [lia|].
  destruct (is_digit c); simpl; lia.
Qed.

Lemma splits_down_tail (s w : string) (n : nat) :
  n <= String.length (s ++ w) ->
  filter (fits s) (splits_down n (s ++ w))
  = map (extend w) (splits_down (Nat.min n (String.length s)) s).
Proof.
  induction n as [|n IH]; intros Hn; [reflexivity|].
  cbn [splits_down filter].
  unfold fits at 1. cbn [fst]. rewrite take_length by assumption.
  destruct (Nat.leb_spec (S n) (String.length s)) as [Hle|Hgt].
  - rewrite Nat.min_l by assumption. cbn [splits_down map].
    unfold extend at 1. cbn [fst snd].
    rewrite take_short, drop_short by assumption. f_equal.
    rewrite IH by lia. now rewrite Nat.min_l by lia.
  - rewrite IH by lia. now rewrite !Nat.min_r by lia.
Qed.

Lemma filter_flat_map {A B : Type} (q : B -> bool) (G : A -> list B)
    (l : list A) :
  filter q (flat_map G l) = flat_map (fun x => filter q (G x)) l.
Proof.
  induction l as [|x l IH]; simpl; [reflexivity|].
  now rewrite filter_app, IH.
Qed.

Lemma flat_map_filter {A B : Type} (p : A -> bool) (G : A -> list B)
    (l : list A) :
  (forall x, In x l -> p x = false -> G x = []) ->
  flat_map G l = flat_map G (filter p l).
Proof.
  induction l as [|x l IH]; intros H; simpl; [reflexivity|].
  destruct (p x) eqn:E; simpl.
  - f_equal. apply IH. intros y Hy. apply H. now right.
  - rewrite (H x (or_introl eq_refl) E). simpl.
    apply IH. intros y Hy. apply H. now right.
Qed.

Lemma flat_map_ext_in {A B : Type} (f g : A -> list B) (l : list A) :
  (forall x, In x l -> f x = g x) -> flat_map f l = flat_map g l.
Proof.
  induction l as [|x l IH]; intros H; simpl; [reflexivity|].
  rewrite (H x (or_introl eq_refl)). f_equal. apply IH.
  intros y Hy. apply H. now right.
Qed.

Lemma map_flat_map {A B C : Type} (h : B -> C) (G : A -> list B)
    (l : list A) :
  map h (flat_map G l) = flat_map (fun x => map h (G x)) l.
Proof.
  induction l as [|x l IH]; simpl; [reflexivity|].
  now rewrite map_app, IH.
Qed.

Lemma flat_map_map {A B C : Type} (h : A -> B) (G : B -> list C)
    (l : list A) :
  flat_map G (map h l) = flat_map (fun x => G (h x)) l.
Proof.
  induction l as [|x l IH]; simpl; [reflexivity|]. now rewrite IH.
Qed.

(** The attempts on [s ++ w] that stay inside [s] are the attempts on [s],
    in the same order. *)
Lemma attempts_tail (r : regex) :
  forall s w,
    filter (fits s) (attempts r (s ++ w)) = map (extend w) (attempts r s).
Proof.
  induction r as [l | | r1 IH1 r2 IH2 | r1 IH1 r2 IH2]; intros s w.
  - cbn [attempts]. destruct (starts_with l s) eqn:E.
    + rewrite (starts_with_more l s w E). cbn [filter map].
      apply starts_with_split in E. destruct E as [post ->].
      unfold fits, extend. cbn [fst snd].
      rewrite append_assoc, !drop_append, str_length_append.
      destruct (Nat.leb_spec (String.length l)
                  (String.length l + String.length post)); [reflexivity | lia].
    + destruct (starts_with l (s ++ w)) eqn:E'; [|reflexivity].
      cbn [filter map]. unfold fits. cbn [fst].
      destruct (Nat.leb_spec (String.length l) (String.length s)) as [Hle|Hgt];
        [|reflexivity].
      rewrite (starts_with_short l s w E' Hle) in E. discriminate.
  - cbn [attempts]. rewrite splits_down_tail by apply digit_run_length.
    now rewrite <- digit_run_short.
  - cbn [attempts]. now rewrite filter_app, map_app, IH1, IH2.
  - cbn [attempts].
    set (F := fun '(m1, s1) =>
                map (fun '(m2, s2) => (m1 ++ m2, s2)) (attempts r2 s1)).
    rewrite filter_flat_map.
    rewrite (flat_map_filter (fits s)).
    + rewrite IH1, flat_map_map, map_flat_map.
      apply flat_map_ext_in. intros [m1 s1] Hin. unfold extend at 1.
      cbn [fst snd]. unfold F.
      apply attempts_sound in Hin. destruct Hin as [-> _].
      transitivity
        (map (fun '(m2, s2) => (m1 ++ m2, s2))
           (map (extend w) (attempts r2 s1)));
        [|rewrite !map_map; apply map_ext; now intros [m2 s2]].
      rewrite <- IH2, filter_map_swap. f_equal.
      * apply filter_ext. intros [m2 s2]. unfold fits. cbn [fst].
        rewrite !str_length_append.
        destruct (Nat.leb_spec (String.length m2) (String.length s1)),
          (Nat.leb_spec (String.length m1 + String.length m2)
             (String.length m1 + String.length s1)); (reflexivity || lia).
    + intros [m1 s1] Hin Hfit. unfold F.
      destruct (attempts r2 s1) as [|a l] eqn:E; [reflexivity|].
      rewrite <- E. clear E.
      assert (Hall : forall y,
                 In y (map (fun '(m2, s2) => (m1 ++ m2, s2)) (attempts r2 s1)) ->
                 fits s y = false).
      { intros y Hy. apply in_map_iff in Hy. destruct Hy as [[m2 s2] [<- _]].
        unfold fits in *. cbn [fst] in *. rewrite str_length_append.
        apply Nat.leb_gt. apply Nat.leb_gt in Hfit. lia. }
      induction (map _ (attempts r2 s1)) as [|y ys IHy]; [reflexivity|].
      simpl. rewrite (Hall y (or_introl eq_refl)). apply IHy.
      intros z Hz. apply Hall. now right.
Qed.

Lemma ends_solid_matches (r : regex) (m : string) :
  ends_solid r = true -> matches r m -> solid_end m = true.
Proof.
  intros Hr M. induction M as [l | s Hne Hd | r1 r2 s _ IH | r1 r2 s _ IH
                               | r1 r2 s1 s2 _ _ _ IH2]; simpl in Hr.
  - assumption.
  - unfold solid_end.
    assert (H : forall d, is_digit (last_char s d) = true \/ last_char s d = d).
    { clear Hne. induction s as [|c s IH]; intros d; simpl; [now right|].
      simpl in Hd. apply andb_prop in Hd. destruct Hd as [Hc Hs].
      destruct (IH Hs c) as [H| ->]; auto. }
    destruct s as [|c s]; [congruence|]. simpl.
    simpl in Hd. apply andb_prop in Hd. destruct Hd as [Hc Hs].
    assert (Hdig : is_digit (last_char s c) = true).
    { clear H Hne. revert c Hc. induction s as [|x s IH]; intros c Hc; simpl;
        [assumption|].
      simpl in Hs. apply andb_prop in Hs. destruct Hs as [Hx Hs].
      now apply IH. }
    revert Hdig. generalize (last_char s c). intros a.
    destruct a as [[] [] [] [] [] [] [] []]; vm_compute; congruence.
  - apply andb_prop in Hr. tauto.
  - apply andb_prop in Hr. tauto.
  - apply solid_end_append. auto.
Qed.

(** On an input with a blank tail, a pattern whose matches end solid does
    what it does on the input without the tail. *)
Lemma match_here_tail (r : regex) (s w : string) :
  ends_solid r = true ->
  all is_space w = true ->
  match_here r (s ++ w) = match_here r s.
Proof.
  intros Hr Hw.
  assert (E : attempts r (s ++ w) = map (extend w) (attempts r s)).
  { rewrite <- attempts_tail. symmetry. apply forallb_filter_id.
    apply forallb_forall. intros [m rest] Hin.
    apply attempts_sound in Hin. destruct Hin as [E M].
    unfold fits. cbn [fst]. apply Nat.leb_le.
    apply (solid_fits s w m rest E Hw).
    exact (ends_solid_matches r m Hr M). }
  unfold match_here. rewrite E.
  now destruct (attempts r s) as [|[m rest] l].
Qed.

Lemma match_here_blank (r : regex) (w : string) :
  ends_solid r = true ->
  all is_space w = true ->
  match_here r w = None.
Proof.
  intros Hr Hw. destruct (match_here r w) as [m|] eqn:E; [|reflexivity].
  apply match_here_Some in E. destruct E as [rest [-> M]].
  apply (ends_solid_matches r m Hr) in M.
  rewrite all_append in Hw. apply andb_prop in Hw. destruct Hw as [Hm _].
  apply blank_not_solid in Hm. congruence.
Qed.

Lemma search_blank (r : regex) (w : string) :
  ends_solid r = true -> all is_space w = true -> search r w = None.
Proof.
  intros Hr. induction w as [|c w IH]; intros Hw; simpl.
  - now rewrite (match_here_blank r "" Hr).
  - rewrite (match_here_blank r _ Hr Hw).
    simpl in Hw. apply andb_prop in Hw. now apply IH.
Qed.

Lemma search_tail (r : regex) (s w : string) :
  ends_solid r = true ->
  all is_space w = true ->
  search r (s ++ w) = search r s.
Proof.
  intros Hr Hw. induction s as [|c s IH].
  - simpl ("" ++ w). rewrite (search_blank r w Hr Hw). simpl.
    now rewrite (match_here_blank r "" Hr).
  - change (String c s ++ w) with (String c (s ++ w)). cbn [search].
    change (String c (s ++ w)) with (String c s ++ w).
    rewrite (match_here_tail r (String c s) w Hr Hw).
    destruct (match_here r (String c s)); [reflexivity | exact IH].
Qed.

Lemma search_rstrip (r : regex) (s : string) :
  ends_solid r = true -> search r (rstrip s) = search r s.
Proof.
  intros Hr. destruct (rstrip_split s) as [w [E Hw]].
  rewrite E at 2. symmetry. now apply search_tail.
Qed.

Lemma search_lstrip (r : regex) (s : string) :
  solid_start (leading r) = true -> search r (lstrip s) = search r s.
Proof.
  intros Hr. induction s as [|c s IH]; [reflexivity|].
  cbn [lstrip]. destruct (is_space c) eqn:Hc; [|reflexivity].
  rewrite IH. cbn [search].
  destruct (match_here r (String c s)) as [m|] eqn:E; [|reflexivity].
  exfalso. apply match_here_Some in E. destruct E as [rest [E M]].
  apply matches_leading in M. destruct M as [rest' ->].
  destruct (leading r) as [|a l]; [discriminate|].
  simpl in E, Hr. injection E as <- _. rewrite Hc in Hr. discriminate.
Qed.

Lemma first_match_strip (regexes : list regex) (s : string) :
  forallb ends_solid regexes = true ->
  forallb (fun r => solid_start (leading r)) regexes = true ->
  first_match regexes (strip s) = first_match regexes s.
Proof.
  induction regexes as [|r rest IH]; intros He Hs; [reflexivity|].
  simpl in He, Hs. apply andb_prop in He, Hs.
  destruct He as [He He'], Hs as [Hs Hs'].
  cbn [first_match]. unfold strip at 1.
  rewrite (search_rstrip r _ He), (search_lstrip r _ Hs).
  destruct (search r s); [reflexivity | now apply IH].
Qed.

Lemma starts_with_tail (p u w : string) :
  solid_end p = true ->
  all is_space w = true ->
  starts_with p (u ++ w) = starts_with p u.
Proof.
  intros Hp Hw.
  destruct (starts_with p (u ++ w)) eqn:E.
  - symmetry. apply (starts_with_short p u w E).
    apply starts_with_split in E. destruct E as [post E].
    exact (solid_fits u w p post E Hw Hp).
  - destruct (starts_with p u) eqn:E'; [|reflexivity].
    rewrite (starts_with_more p u w E') in E. discriminate.
Qed.

Lemma contains_blank (p w : string) :
  solid_end p = true -> all is_space w = true -> contains p w = false.
Proof.
  intros Hp Hw. destruct (contains p w) eqn:E; [|reflexivity].
  apply contains_Substring in E.
  apply (Substring_blank p w E) in Hw. apply blank_not_solid in Hw.
  congruence.
Qed.

Lemma contains_tail (p u w : string) :
  solid_end p = true ->
  all is_space w = true ->
  contains p (u ++ w) = contains p u.
Proof.
  intros Hp Hw. induction u as [|c u IH].
  - simpl ("" ++ w). rewrite (contains_blank p w Hp Hw). symmetry.
    apply (contains_blank p "" Hp eq_refl).
  - change (String c u ++ w) with (String c (u ++ w)). cbn [contains].
    change (String c (u ++ w)) with (String c u ++ w).
    rewrite (starts_with_tail p (String c u) w Hp Hw).
    destruct (starts_with p (String c u)); [reflexivity | exact IH].
Qed.

Lemma contains_lstrip (p s : string) :
  solid_start p = true -> contains p (lstrip s) = contains p s.
Proof.
  intros Hp. induction s as [|c s IH]; [reflexivity|].
  cbn [lstrip]. destruct (is_space c) eqn:Hc; [|reflexivity].
  rewrite IH. cbn [contains].
  destruct p as [|a p]; [discriminate|]. cbn [starts_with].
  destruct (Ascii.eqb a c) eqn:Ea; [|reflexivity].
  apply Ascii.eqb_eq in Ea. subst a. simpl in Hp. rewrite Hc in Hp.
  discriminate.
Qed.

Lemma contains_strip (p s : string) :
  solid p = true -> contains p (strip s) = contains p s.
Proof.
  intros Hp. apply andb_prop in Hp. destruct Hp as [Hs He].
  unfold strip. destruct (rstrip_split (lstrip s)) as [w [E Hw]].
  rewrite <- (contains_lstrip p s Hs). rewrite E at 2.
  symmetry. now apply contains_tail.
Qed.

Lemma any_in_strip (words : list string) (s : string) :
  forallb solid words = true ->
  any_in words (strip s) = any_in words s.
Proof.
  unfold any_in. induction words as [|w words IH]; intros H; [reflexivity|].
  simpl in H. apply andb_prop in H. destruct H as [Hw H].
  simpl. now rewrite (contains_strip w s Hw), IH.
Qed.

Lemma extract_deadline_strip (s : string) :
  extract_deadline (strip s) = extract_deadline s.
Proof.
  unfold extract_deadline. rewrite lower_strip.
  now apply first_match_strip.
Qed.

Lemma extract_priority_strip (s : string) :
  extract_priority (strip s) = extract_priority s.
Proof.
  unfold extract_priority. rewrite lower_strip.
  now rewrite !any_in_strip by reflexivity.
Qed.

End Whitespace.

(** X19: whitespace around the text has no part in the extraction: the
    stripped text has the deadline and the priority of the text as typed.
    Hence [parse_task] builds the same record from a line and from the
    stripped line, and [add_task], which strips the line before it parses
    it, stores the record parsed from the line as typed. *)
Theorem parse_task_strip (line : string) :
  extract_deadline (strip line) = extract_deadline line /\
  extract_priority (strip line) = extract_priority line /\
  parse_task (strip line) = parse_task line /\
  (forall st,
      strip line <> ""%string ->
      tasks (add_task st line) = tasks st ++ [parse_task line]).
Proof.
  assert (E : parse_task (strip line) = parse_task line).
  { unfold parse_task.
    now rewrite strip_idempotent, extract_deadline_strip,
      extract_priority_strip. }
  split; [apply extract_deadline_strip|].
  split; [apply extract_priority_strip|]. split; [exact E|].
  intros st Hne. unfold add_task.
  destruct (String.eqb (strip line) "") eqn:Eb;
    [apply String.eqb_eq in Eb; contradiction|].
  cbn [print tasks]. now rewrite E.
Qed.

(** X19 on a line typed with spaces around it. *)
Lemma parse_task_strip_witness :
  let line := "  pay rent by Friday "%string in
  strip line <> ""%string /\
  tasks (add_task (mkState [] NoFile []) line) = [] ++ [parse_task line].
Proof.
  intros line.
  assert (H : strip line <> ""%string) by discriminate.
  split; [exact H|].
  exact (proj2 (proj2 (proj2 (parse_task_strip line)))
           (mkState [] NoFile []) H).
Defined.
